(** * cute-dynamo: a shallow embedding of the item codec, the credential
    resolver and the access operations, with the properties of the
    specification stated and proved over it.

    Layout of the development:
    - [JS]        the fragment of JavaScript values the library manipulates
                  (truthiness, the logical AND, own properties, spread,
                  ToString);
    - [JSON]      the built-ins JSON.stringify and JSON.parse;
    - [Sdk]       the commands, outputs, credentials and client handle of
                  the AWS SDK as the library uses them;
    - [CuteDynamo]    init / get / put of the package (module-level client);
    - [Index]     createDynamoDBClient of src/index.js;
    - [Helpers]   the helper file whose functions take the client as an
                  argument (createDynamoDBDocumentClient, put, get,
                  updateItem, deleteItem, queryItems, scanTable);
    - [MemoryTable]   an executable model of one table of the external
                  store, used to run put-then-get scenarios;
    - [Shape]     the vocabulary of the statements (well-formed and
                  JSON-representable values, the JSON image of a value, the
                  resolution order in the words of the specification);
    - [Trace]     a service that records the commands it receives;
    - [Scenario]  concrete environments, tables and values.

    Scope of the value model.  A value is undefined, null, a boolean, a
    number, a string, an array or a plain object; functions, symbols,
    BigInts, objects with a toJSON method and cyclic structures are not
    values of the model.  A string is a sequence of UTF-16 code units below
    256, one [ascii] each.  A number is NaN, an infinity, the negative zero
    or an integer; the integers that are JavaScript numbers of the model are
    the safe ones (absolute value at most 2^53 - 1, see
    [Shape.well_formed]), where the decimal rendering of Number::toString is
    exact; fractions are left out.  An evaluation that would leave this
    fragment (a fraction, a code unit above 255) ends in [Unmodelled], which
    is never confused with a thrown error. *)

From Stdlib Require Import String Ascii List ZArith NArith Bool Lia.
From Stdlib Require Import Decimal DecimalString DecimalZ DecimalN DecimalPos DecimalFacts.
Import ListNotations.

Set Warnings "-register-all".

Local Open Scope list_scope.
Local Open Scope string_scope.

(** ** Outcomes of an evaluation *)

Inductive error : Type :=
| TypeError                      (* e.g. a property read on undefined *)
| SyntaxError                    (* raised by JSON.parse *)
| Error (message : string)       (* new Error(message) *)
| ServiceException (name : string). (* a rejection coming from the SDK *)

Inductive result (A : Type) : Type :=
| Ok (a : A)
| Throw (e : error)
| Unmodelled.

Arguments Ok {A} a.
Arguments Throw {A} e.
Arguments Unmodelled {A}.

Definition bind {A B : Type} (r : result A) (k : A -> result B) : result B :=
  match r with
  | Ok a => k a
  | Throw e => Throw e
  | Unmodelled => Unmodelled
  end.

Notation "'let*' x ':=' r 'in' k" := (bind r (fun x => k))
  (at level 10, x name, r at level 100, k at level 200).

(** The double quote character, code unit 34. *)
Definition dquote : ascii := "034"%char.

Module JS.

(** *** Numbers *)

Inductive number : Type :=
| NaN
| Infinity
| NegInfinity
| NegZero
| Int (z : Z).

Definition MAX_SAFE_INTEGER : Z := 9007199254740991.

Definition is_safe_integer (z : Z) : bool :=
  (Z.abs z <=? MAX_SAFE_INTEGER)%Z.

Definition is_finite (n : number) : bool :=
  match n with
  | NaN | Infinity | NegInfinity => false
  | NegZero | Int _ => true
  end.

(** Number::toString in radix 10.  For an integer it writes the decimal
    digits, which is what JavaScript does for every safe integer; the
    integers beyond are no numbers of the model ([Shape.well_formed]). *)
Definition Number_toString (n : number) : string :=
  match n with
  | NaN => "NaN"
  | Infinity => "Infinity"
  | NegInfinity => "-Infinity"
  | NegZero => "0"
  | Int z => NilZero.string_of_int (Z.to_int z)
  end.

(** *** Values *)

Inductive value : Type :=
| VUndefined
| VNull
| VBool (b : bool)
| VNum (n : number)
| VStr (s : string)
| VArr (elements : list value)
| VObj (properties : list (string * value)).

(** An object is the list of its own enumerable string-keyed properties,
    in the order OrdinaryOwnPropertyKeys enumerates them. *)
Definition object : Type := list (string * value).

(** ToBoolean. *)
Definition truthy (v : value) : bool :=
  match v with
  | VUndefined | VNull => false
  | VBool b => b
  | VNum NaN | VNum NegZero => false
  | VNum (Int z) => negb (z =? 0)%Z
  | VNum _ => true
  | VStr s => negb (s =? "")
  | VArr _ | VObj _ => true
  end.

(** [a && b]. *)
Definition and (a b : value) : value := if truthy a then b else a.

(** *** Own properties *)

(** An array index is the canonical decimal rendering of an integer in
    0 .. 2^32 - 2. *)
Definition array_index (k : string) : option N :=
  match NilZero.uint_of_string k with
  | Some d =>
      let n := N.of_uint d in
      if (NilZero.string_of_uint (N.to_uint n) =? k) && (n <? 4294967295)%N
      then Some n else None
  | None => None
  end.

Fixpoint lookup (k : string) (o : object) : option value :=
  match o with
  | [] => None
  | (k', v) :: o' => if k' =? k then Some v else lookup k o'
  end.

Definition has_own (k : string) (o : object) : bool :=
  match lookup k o with Some _ => true | None => false end.

(** [o.k] on an ordinary object: undefined when the property is absent. *)
Definition get_own (k : string) (o : object) : value :=
  match lookup k o with Some v => v | None => VUndefined end.

Fixpoint replace (k : string) (v : value) (o : object) : object :=
  match o with
  | [] => []
  | (k', v') :: o' =>
      if k' =? k then (k', v) :: o' else (k', v') :: replace k v o'
  end.

Fixpoint insert_index (n : N) (k : string) (v : value) (o : object) : object :=
  match o with
  | [] => [(k, v)]
  | (k', v') :: o' =>
      match array_index k' with
      | Some n' =>
          if (n' <? n)%N then (k', v') :: insert_index n k v o'
          else (k, v) :: o
      | None => (k, v) :: o
      end
  end.

(** CreateDataProperty / [o.k = v]: an existing property keeps its place, a
    new array index goes among the indices in ascending order, any other new
    key goes last. *)
Definition define (k : string) (v : value) (o : object) : object :=
  if has_own k o then replace k v o
  else match array_index k with
       | Some n => insert_index n k v o
       | None => (o ++ [(k, v)])%list
       end.

Definition define_all (ps : list (string * value)) (o : object) : object :=
  fold_left (fun acc kv => define (fst kv) (snd kv) acc) ps o.

Fixpoint indexed {A : Type} (f : A -> value) (i : N) (l : list A)
  : list (string * value) :=
  match l with
  | [] => []
  | x :: l' =>
      (NilZero.string_of_uint (N.to_uint i), f x) :: indexed f (N.succ i) l'
  end.

(** The own enumerable properties copied by an object spread [...v]. *)
Definition spread (v : value) : list (string * value) :=
  match v with
  | VObj o => o
  | VArr l => indexed (fun x => x) 0%N l
  | VStr s => indexed (fun c => VStr (String c "")) 0%N (list_ascii_of_string s)
  | VUndefined | VNull | VBool _ | VNum _ => []
  end.

(** *** ToString *)

Fixpoint join (sep : string) (l : list string) : string :=
  match l with
  | [] => ""
  | [s] => s
  | s :: l' => s ++ sep ++ join sep l'
  end.

Fixpoint ToString (v : value) : string :=
  match v with
  | VUndefined => "undefined"
  | VNull => "null"
  | VBool true => "true"
  | VBool false => "false"
  | VNum n => Number_toString n
  | VStr s => s
  | VArr l =>
      join "," (map (fun e => match e with
                              | VUndefined | VNull => ""
                              | _ => ToString e
                              end) l)
  | VObj _ => "[object Object]"
  end.

End JS.

Module JSON.
Import JS.

(** *** JSON.stringify *)

Definition hex_digit (n : N) : ascii :=
  if (n <? 10)%N then ascii_of_N (48 + n) else ascii_of_N (87 + n).

(** One code unit of QuoteJSONString. *)
Definition escape (c : ascii) : string :=
  if (c =? "008")%char then "\b"
  else if (c =? "009")%char then "\t"
  else if (c =? "010")%char then "\n"
  else if (c =? "012")%char then "\f"
  else if (c =? "013")%char then "\r"
  else if (c =? dquote)%char then String "\" (String dquote "")
  else if (c =? "\")%char then "\\"
  else if (N_of_ascii c <? 32)%N then
    "\u00" ++ String (hex_digit (N_of_ascii c / 16))
                (String (hex_digit (N_of_ascii c mod 16)) "")
  else String c "".

Fixpoint escape_all (s : string) : string :=
  match s with
  | "" => ""
  | String c r => escape c ++ escape_all r
  end.

Definition QuoteJSONString (s : string) : string :=
  String dquote (escape_all s ++ String dquote "").

(** SerializeJSONProperty: [None] stands for the result undefined.  Inside
    an array an undefined result is written null (SerializeJSONArray),
    inside an object the property is left out (SerializeJSONObject). *)
Fixpoint SerializeJSONProperty (v : value) : option string :=
  match v with
  | VUndefined => None
  | VNull => Some "null"
  | VBool true => Some "true"
  | VBool false => Some "false"
  | VNum n => Some (if is_finite n then Number_toString n else "null")
  | VStr s => Some (QuoteJSONString s)
  | VArr l =>
      Some ("[" ++ join ","
              (map (fun e => match SerializeJSONProperty e with
                             | Some s => s
                             | None => "null"
                             end) l) ++ "]")
  | VObj o =>
      Some ("{" ++ join ","
              (flat_map (fun kv => match SerializeJSONProperty (snd kv) with
                                   | Some s => [QuoteJSONString (fst kv) ++ ":" ++ s]
                                   | None => []
                                   end) o) ++ "}")
  end.

(** JSON.stringify(value), without replacer or indentation. *)
Definition stringify (v : value) : value :=
  match SerializeJSONProperty v with
  | Some s => VStr s
  | None => VUndefined
  end.

(** *** JSON.parse *)

(** Result of a parsing function: the value read and the text left, with a
    flag telling whether the value is exactly the one JavaScript builds
    ([false] when the text denotes a value outside the modelled fragment,
    which is syntactically fine all the same). *)
Inductive presult (A : Type) : Type :=
| POk (exact : bool) (a : A) (rest : string)
| PSyntax
| PFuel.

Arguments POk {A} exact a rest.
Arguments PSyntax {A}.
Arguments PFuel {A}.

Definition is_ws (c : ascii) : bool :=
  (c =? " ")%char || (c =? "009")%char || (c =? "010")%char || (c =? "013")%char.

Fixpoint skip_ws (s : string) : string :=
  match s with
  | "" => ""
  | String c r => if is_ws c then skip_ws r else s
  end.

Fixpoint strip_prefix (p s : string) : option string :=
  match p with
  | "" => Some s
  | String a p' =>
      match s with
      | "" => None
      | String b s' => if (a =? b)%char then strip_prefix p' s' else None
      end
  end.

Definition literal (p : string) (v : value) (s : string) : presult value :=
  match strip_prefix p s with
  | Some r => POk true v r
  | None => PSyntax
  end.

(** **** Strings *)

Definition hex_value (c : ascii) : option N :=
  let n := N_of_ascii c in
  if (48 <=? n)%N && (n <=? 57)%N then Some (n - 48)%N
  else if (97 <=? n)%N && (n <=? 102)%N then Some (n - 87)%N
  else if (65 <=? n)%N && (n <=? 70)%N then Some (n - 55)%N
  else None.

Definition hex4 (a b c d : ascii) : option N :=
  match hex_value a, hex_value b, hex_value c, hex_value d with
  | Some x, Some y, Some z, Some w => Some (((x * 16 + y) * 16 + z) * 16 + w)%N
  | _, _, _, _ => None
  end.

Definition unescape (c : ascii) : option ascii :=
  if (c =? dquote)%char then Some dquote
  else if (c =? "\")%char then Some "\"%char
  else if (c =? "/")%char then Some "/"%char
  else if (c =? "b")%char then Some "008"%char
  else if (c =? "f")%char then Some "012"%char
  else if (c =? "n")%char then Some "010"%char
  else if (c =? "r")%char then Some "013"%char
  else if (c =? "t")%char then Some "009"%char
  else None.

Definition pcons (ex : bool) (c : ascii) (r : presult string) : presult string :=
  match r with
  | POk ex' s rest => POk (ex && ex') (String c s) rest
  | PSyntax => PSyntax
  | PFuel => PFuel
  end.

(** The characters of a string literal, after its opening quote, up to and
    including the closing quote. *)
Fixpoint parse_chars (s : string) : presult string :=
  match s with
  | "" => PSyntax
  | String c r =>
      if (c =? dquote)%char then POk true "" r
      else if (c =? "\")%char then
        match r with
        | "" => PSyntax
        | String e r1 =>
            if (e =? "u")%char then
              match r1 with
              | String h1 (String h2 (String h3 (String h4 r2))) =>
                  match hex4 h1 h2 h3 h4 with
                  | Some n =>
                      if (n <? 256)%N then pcons true (ascii_of_N n) (parse_chars r2)
                      else pcons false "?"%char (parse_chars r2)
                  | None => PSyntax
                  end
              | _ => PSyntax
              end
            else
              match unescape e with
              | Some c' => pcons true c' (parse_chars r1)
              | None => PSyntax
              end
        end
      else if (N_of_ascii c <? 32)%N then PSyntax
      else pcons true c (parse_chars r)
  end.

(** **** Numbers *)

Definition digit (c : ascii) : option (uint -> uint) :=
  if (c =? "0")%char then Some D0
  else if (c =? "1")%char then Some D1
  else if (c =? "2")%char then Some D2
  else if (c =? "3")%char then Some D3
  else if (c =? "4")%char then Some D4
  else if (c =? "5")%char then Some D5
  else if (c =? "6")%char then Some D6
  else if (c =? "7")%char then Some D7
  else if (c =? "8")%char then Some D8
  else if (c =? "9")%char then Some D9
  else None.

(** The longest prefix of decimal digits. *)
Fixpoint read_digits (s : string) : uint * string :=
  match s with
  | "" => (Nil, "")
  | String c r =>
      match digit c with
      | Some D => let (d, r') := read_digits r in (D d, r')
      | None => (Nil, s)
      end
  end.

Definition leading_zero (d : uint) : bool :=
  match d with
  | D0 Nil => false
  | D0 _ => true
  | _ => false
  end.

(** The optional fraction: the digits after the point. *)
Definition read_fraction (s : string) : option (uint * string) :=
  match s with
  | String c r =>
      if (c =? ".")%char then
        match read_digits r with
        | (Nil, _) => None
        | (f, r') => Some (f, r')
        end
      else Some (Nil, s)
  | "" => Some (Nil, s)
  end.

Definition read_exponent_digits (neg : bool) (s : string) : option (Z * string) :=
  match read_digits s with
  | (Nil, _) => None
  | (x, r) => Some (if neg then (- Z.of_uint x)%Z else Z.of_uint x, r)
  end.

(** The optional exponent part. *)
Definition read_exponent (s : string) : option (Z * string) :=
  match s with
  | String c r =>
      if (c =? "e")%char || (c =? "E")%char then
        match r with
        | String sg r' =>
            if (sg =? "-")%char then read_exponent_digits true r'
            else if (sg =? "+")%char then read_exponent_digits false r'
            else read_exponent_digits false r
        | "" => None
        end
      else Some (0%Z, s)
  | "" => Some (0%Z, s)
  end.

(** The number denoted by sign, integer digits, fraction digits and
    exponent, when it is a safe integer (or a zero). *)
Definition number_of_literal (neg : bool) (i f : uint) (e : Z) : option number :=
  let m := Z.of_uint (Decimal.app i f) in
  let scale := (e - Z.of_nat (nb_digits f))%Z in
  if (m =? 0)%Z then Some (if neg then NegZero else Int 0)
  else
    let integral :=
      if (0 <=? scale)%Z then Some (m * 10 ^ scale)%Z
      else if (m mod 10 ^ (- scale) =? 0)%Z then Some (m / 10 ^ (- scale))%Z
      else None in
    match integral with
    | Some n =>
        if is_safe_integer n then Some (Int (if neg then (- n)%Z else n))
        else None
    | None => None
    end.

Definition parse_unsigned (neg : bool) (s : string) : presult number :=
  match read_digits s with
  | (Nil, _) => PSyntax
  | (i, r) =>
      if leading_zero i then PSyntax
      else
        match read_fraction r with
        | None => PSyntax
        | Some (f, r1) =>
            match read_exponent r1 with
            | None => PSyntax
            | Some (e, r2) =>
                match number_of_literal neg i f e with
                | Some n => POk true n r2
                | None => POk false NaN r2
                end
            end
        end
  end.

Definition parse_number (s : string) : presult number :=
  match s with
  | String c r =>
      if (c =? "-")%char then parse_unsigned true r else parse_unsigned false s
  | "" => PSyntax
  end.

(** **** Values *)

Fixpoint parse_value (fuel : nat) (s : string) {struct fuel} : presult value :=
  match fuel with
  | O => PFuel
  | S fuel' =>
      match skip_ws s with
      | "" => PSyntax
      | String c r =>
          if (c =? "n")%char then literal "ull" VNull r
          else if (c =? "t")%char then literal "rue" (VBool true) r
          else if (c =? "f")%char then literal "alse" (VBool false) r
          else if (c =? dquote)%char then
            match parse_chars r with
            | POk ex k r' => POk ex (VStr k) r'
            | PSyntax => PSyntax
            | PFuel => PFuel
            end
          else if (c =? "[")%char then
            match skip_ws r with
            | String c' r' =>
                if (c' =? "]")%char then POk true (VArr []) r'
                else parse_elements fuel' (String c' r') true []
            | "" => PSyntax
            end
          else if (c =? "{")%char then
            match skip_ws r with
            | String c' r' =>
                if (c' =? "}")%char then POk true (VObj []) r'
                else parse_members fuel' (String c' r') true []
            | "" => PSyntax
            end
          else
            match parse_number (String c r) with
            | POk ex n r' => POk ex (VNum n) r'
            | PSyntax => PSyntax
            | PFuel => PFuel
            end
      end
  end

with parse_elements (fuel : nat) (s : string) (ex : bool) (acc : list value)
       {struct fuel} : presult value :=
  match fuel with
  | O => PFuel
  | S fuel' =>
      match parse_value fuel' s with
      | POk ex1 v r =>
          match skip_ws r with
          | String c r' =>
              if (c =? ",")%char then
                parse_elements fuel' r' (ex && ex1) (acc ++ [v])%list
              else if (c =? "]")%char then
                POk (ex && ex1) (VArr (acc ++ [v])%list) r'
              else PSyntax
          | "" => PSyntax
          end
      | PSyntax => PSyntax
      | PFuel => PFuel
      end
  end

with parse_members (fuel : nat) (s : string) (ex : bool) (acc : object)
       {struct fuel} : presult value :=
  match fuel with
  | O => PFuel
  | S fuel' =>
      match skip_ws s with
      | "" => PSyntax
      | String q r =>
          if (q =? dquote)%char then
            match parse_chars r with
            | POk ex1 k r1 =>
                match skip_ws r1 with
                | String c r2 =>
                    if (c =? ":")%char then
                      match parse_value fuel' r2 with
                      | POk ex2 v r3 =>
                          match skip_ws r3 with
                          | String c' r4 =>
                              if (c' =? ",")%char then
                                parse_members fuel' r4 (ex && ex1 && ex2)
                                  (define k v acc)
                              else if (c' =? "}")%char then
                                POk (ex && ex1 && ex2) (VObj (define k v acc)) r4
                              else PSyntax
                          | "" => PSyntax
                          end
                      | PSyntax => PSyntax
                      | PFuel => PFuel
                      end
                    else PSyntax
                | "" => PSyntax
                end
            | PSyntax => PSyntax
            | PFuel => PFuel
            end
          else PSyntax
      end
  end.

(** Fuel that is enough for any text: two units per character. *)
Definition fuel_for (s : string) : nat := 2 * String.length s + 2.

(** JSON.parse(text), without reviver: the argument goes through ToString,
    the whole text must be one JSON value between optional white space. *)
Definition parse (text : value) : result value :=
  let s := ToString text in
  match parse_value (fuel_for s) s with
  | POk ex v r =>
      match skip_ws r with
      | "" => if ex then Ok v else Unmodelled
      | String _ _ => Throw SyntaxError
      end
  | PSyntax => Throw SyntaxError
  | PFuel => Unmodelled
  end.

End JSON.


(** ** The AWS SDK, as far as the library touches it *)

Module Sdk.
Import JS.

(** The client object new CognitoIdentityClient({region}) builds. *)
Record CognitoIdentityClient : Type := NewCognitoIdentityClient {
  cognito_region : value
}.

(** What the DynamoDBClient constructor receives as [credentials]. *)
Inductive Credentials : Type :=
| fromCognitoIdentityPool (client : CognitoIdentityClient) (identityPoolId : value)
    (* fromCognitoIdentityPool({client, identityPoolId}) *)
| StaticCredentials (accessKeyId secretAccessKey : value).
    (* the object literal {accessKeyId, secretAccessKey} *)

(** The client object new DynamoDBClient({region, credentials}) builds. *)
Record DynamoDBClient : Type := NewDynamoDBClient {
  region : value;
  credentials : Credentials
}.

(** The region check both client constructors run (resolveRegionConfig of
    the SDK).  An undefined or null region is replaced by the provider of
    the runtime, which is only asked when a request is sent; any other
    falsy region is refused on the spot. *)
Definition region_missing (region : value) : bool :=
  match region with
  | VUndefined | VNull => false
  | _ => negb (truthy region)
  end.

(** [new CognitoIdentityClient({region})] *)
Definition new_CognitoIdentityClient (region : value) : result CognitoIdentityClient :=
  if region_missing region then Throw (Error "Region is missing")
  else Ok (NewCognitoIdentityClient region).

(** [new DynamoDBClient({region, credentials})] *)
Definition new_DynamoDBClient (region : value) (credentials : Credentials)
  : result DynamoDBClient :=
  if region_missing region then Throw (Error "Region is missing")
  else Ok (NewDynamoDBClient region credentials).

(** DynamoDBDocumentClient.from(client) *)
Inductive DynamoDBDocumentClient : Type :=
| from (client : DynamoDBClient).

(** The command objects of lib-dynamodb, with the input fields the library
    fills in. *)
Inductive Command : Type :=
| GetCommand (TableName Key : value)
| PutCommand (TableName Item : value)
| UpdateCommand (TableName Key UpdateExpression ExpressionAttributeValues : value)
| DeleteCommand (TableName Key : value)
| QueryCommand (TableName KeyConditionExpression ExpressionAttributeValues : value)
| ScanCommand (TableName FilterExpression ExpressionAttributeValues : value).

(** The outputs [client.send] resolves to; an absent optional field is
    [None]. *)
Inductive Output : Type :=
| GetCommandOutput (Item : option object)
| PutCommandOutput (Attributes : option object)
| UpdateCommandOutput (Attributes : option object)
| DeleteCommandOutput (Attributes : option object)
| QueryCommandOutput (Items : list object) (LastEvaluatedKey : option object)
| ScanCommandOutput (Items : list object) (LastEvaluatedKey : option object).

(** [response.Item] *)
Definition Item (response : Output) : option object :=
  match response with
  | GetCommandOutput i => i
  | _ => None
  end.

(** The environment variables the library reads. *)
Record ProcessEnv : Type := {
  DYNAMODB_TABLE : option string;
  AWS_REGION : option string;
  AWS_IDENTITY_POOL_ID : option string;
  AWS_ACCESS_KEY_ID : option string;
  AWS_SECRET_ACCESS_KEY : option string
}.

(** [process.env.X]: a string, or undefined when the variable is unset. *)
Definition env_value (x : option string) : value :=
  match x with
  | Some s => VStr s
  | None => VUndefined
  end.

(** One property of a destructuring pattern [{k = dflt}] applied to
    [source]; [source] is neither null nor undefined, and [k] is one of the
    four configuration names, which no primitive wrapper or array defines. *)
Definition destructure (k : string) (source dflt : value) : value :=
  match source with
  | VObj o =>
      match get_own k o with
      | VUndefined => dflt
      | v => v
      end
  | _ => dflt
  end.

End Sdk.

(** ** The package entry point: init, get, put *)

Module CuteDynamo.
Import JS Sdk.

Section WithService.

(** The external store and the network behind [client.send]: a state
    [World] and the effect of sending one command. *)
Context {World : Type}.
Variable send : DynamoDBDocumentClient -> Command -> World -> result Output * World.

(** The module-level [let client;] together with the outside world. *)
Record state : Type := {
  client : option DynamoDBDocumentClient;
  world : World
}.

(** init({region, identityPoolId, accessKeyId, secretAccessKey} = {}),
    each field defaulting to its environment variable.  On success the
    module-level client is assigned and the promise resolves to
    undefined; a throw, of init itself or of a constructor of the SDK,
    comes before the assignment and leaves the client as it was. *)
Definition init (env : ProcessEnv) (options : value) (st : state)
  : result value * state :=
  let options := match options with VUndefined => VObj [] | _ => options end in
  match options with
  | VNull => (Throw TypeError, st)
  | _ =>
      let region := destructure "region" options (env_value (AWS_REGION env)) in
      let identityPoolId :=
        destructure "identityPoolId" options (env_value (AWS_IDENTITY_POOL_ID env)) in
      let accessKeyId :=
        destructure "accessKeyId" options (env_value (AWS_ACCESS_KEY_ID env)) in
      let secretAccessKey :=
        destructure "secretAccessKey" options (env_value (AWS_SECRET_ACCESS_KEY env)) in
      let credentials :=
        if truthy identityPoolId then
          let* cognito := new_CognitoIdentityClient region in
          Ok (fromCognitoIdentityPool cognito identityPoolId)
        else if truthy (JS.and accessKeyId secretAccessKey) then
          Ok (StaticCredentials accessKeyId secretAccessKey)
        else Throw (Error "Insufficient credentials provided") in
      match (let* credentials := credentials in
             new_DynamoDBClient region credentials) with
      | Ok dynamo =>
          (Ok VUndefined, {| client := Some (from dynamo); world := world st |})
      | Throw e => (Throw e, st)
      | Unmodelled => (Unmodelled, st)
      end
  end.

(** The key object of get: [{PK: pk, ...(sk && {SK: sk})}]. *)
Definition get_key (pk sk : value) : object :=
  define_all (spread (JS.and sk (VObj (define "SK" sk []))))
    (define "PK" pk []).

(** The tail of get, after the response has arrived. *)
Definition decode (response : Output) : result value :=
  match Item response with
  | Some item =>
      if truthy (get_own "JSON" item) then
        let* parsed := JSON.parse (get_own "JSON" item) in
        Ok (VObj (define "JSON" parsed item))
      else Ok (VObj item)
  | None => Ok VNull
  end.

Definition get (env : ProcessEnv) (pk sk : value) (st : state)
  : result value * state :=
  let key := get_key pk sk in
  match client st with
  | None => (Throw TypeError, st)
  | Some c =>
      match send c (GetCommand (env_value (DYNAMODB_TABLE env)) (VObj key)) (world st) with
      | (Ok response, w) => (decode response, {| client := client st; world := w |})
      | (Throw e, w) => (Throw e, {| client := client st; world := w |})
      | (Unmodelled, w) => (Unmodelled, {| client := client st; world := w |})
      end
  end.

(** The item object of put:
    [{PK: pk, ...(sk && {SK: sk}), JSON: JSON.stringify(data)}]. *)
Definition put_item (data pk sk : value) : object :=
  define "JSON" (JSON.stringify data)
    (define_all (spread (JS.and sk (VObj (define "SK" sk []))))
       (define "PK" pk [])).

Definition put (env : ProcessEnv) (data pk sk : value) (st : state)
  : result Output * state :=
  let item := put_item data pk sk in
  match client st with
  | None => (Throw TypeError, st)
  | Some c =>
      match send c (PutCommand (env_value (DYNAMODB_TABLE env)) (VObj item)) (world st) with
      | (r, w) => (r, {| client := client st; world := w |})
      end
  end.

End WithService.

Arguments client {World} s.
Arguments world {World} s.

End CuteDynamo.

(** ** src/index.js *)

Module Index.
Import JS Sdk.

(** createDynamoDBClient({region, identityPoolId, accessKeyId,
    secretAccessKey}): no default for the parameter nor for its fields. *)
Definition createDynamoDBClient (options : value) : result DynamoDBClient :=
  match options with
  | VUndefined | VNull => Throw TypeError
  | _ =>
      let region := destructure "region" options VUndefined in
      let identityPoolId := destructure "identityPoolId" options VUndefined in
      let accessKeyId := destructure "accessKeyId" options VUndefined in
      let secretAccessKey := destructure "secretAccessKey" options VUndefined in
      let* credentials :=
        if truthy identityPoolId then
          let* cognito := new_CognitoIdentityClient region in
          Ok (fromCognitoIdentityPool cognito identityPoolId)
        else if truthy (JS.and accessKeyId secretAccessKey) then
          Ok (StaticCredentials accessKeyId secretAccessKey)
        else Throw (Error "Insufficient credentials provided") in
      new_DynamoDBClient region credentials
  end.

End Index.

(** ** The helper file: every function takes the client as an argument *)

Module Helpers.
Import JS Sdk.

Definition createDynamoDBDocumentClient (options : value)
  : result DynamoDBDocumentClient :=
  match options with
  | VUndefined | VNull => Throw TypeError
  | _ =>
      let region := destructure "region" options VUndefined in
      let identityPoolId := destructure "identityPoolId" options VUndefined in
      let accessKeyId := destructure "accessKeyId" options VUndefined in
      let secretAccessKey := destructure "secretAccessKey" options VUndefined in
      let* credentials :=
        if truthy identityPoolId then
          let* cognito := new_CognitoIdentityClient region in
          Ok (fromCognitoIdentityPool cognito identityPoolId)
        else if truthy (JS.and accessKeyId secretAccessKey) then
          Ok (StaticCredentials accessKeyId secretAccessKey)
        else Throw (Error "Insufficient credentials provided") in
      let* client := new_DynamoDBClient region credentials in
      Ok (from client)
  end.

Section WithService.

Context {World : Type}.
Variable send : DynamoDBDocumentClient -> Command -> World -> result Output * World.

(** [client.send(command)] on an argument that may be undefined. *)
Definition client_send (client : option DynamoDBDocumentClient)
    (command : Command) (w : World) : result Output * World :=
  match client with
  | None => (Throw TypeError, w)
  | Some c => send c command w
  end.

Definition put (env : ProcessEnv) (client : option DynamoDBDocumentClient)
    (item : value) (w : World) : result Output * World :=
  client_send client (PutCommand (env_value (DYNAMODB_TABLE env)) item) w.

Definition get (env : ProcessEnv) (client : option DynamoDBDocumentClient)
    (key : value) (w : World) : result Output * World :=
  client_send client (GetCommand (env_value (DYNAMODB_TABLE env)) key) w.

Definition updateItem (env : ProcessEnv) (client : option DynamoDBDocumentClient)
    (key updateExpression expressionAttributeValues : value) (w : World)
  : result Output * World :=
  client_send client
    (UpdateCommand (env_value (DYNAMODB_TABLE env)) key updateExpression
       expressionAttributeValues) w.

Definition deleteItem (env : ProcessEnv) (client : option DynamoDBDocumentClient)
    (key : value) (w : World) : result Output * World :=
  client_send client (DeleteCommand (env_value (DYNAMODB_TABLE env)) key) w.

Definition queryItems (env : ProcessEnv) (client : option DynamoDBDocumentClient)
    (keyConditionExpression expressionAttributeValues : value) (w : World)
  : result Output * World :=
  client_send client
    (QueryCommand (env_value (DYNAMODB_TABLE env)) keyConditionExpression
       expressionAttributeValues) w.

Definition scanTable (env : ProcessEnv) (client : option DynamoDBDocumentClient)
    (filterExpression expressionAttributeValues : value) (w : World)
  : result Output * World :=
  client_send client
    (ScanCommand (env_value (DYNAMODB_TABLE env)) filterExpression
       expressionAttributeValues) w.

End WithService.

End Helpers.

(** ** An executable model of the external store

    One table behind a document client: key schema, marshalling of the
    native values and the point operations.  It serves to run the
    operations on concrete inputs; the properties of get and put are stated
    for an arbitrary service.  Not modelled: the expression languages of
    update, query and filtered scan, the limit on the size of an item, and
    the order in which the service hands the attributes back (the order of
    the write is kept). *)

Module MemoryTable.
Import JS Sdk.

(** The attribute types a key attribute may have in this model. *)
Inductive key_type : Type := S | N.

Record table : Type := {
  TableName : string;
  PK_type : key_type;
  SK_type : option key_type;
  items : list object
}.

(** What the document client stores for one attribute value and hands back
    on a read: undefined inside a value and the special numeric values are
    refused on the client side, the negative zero is written as 0. *)
Fixpoint marshall (v : value) : result value :=
  match v with
  | VUndefined =>
      Throw (Error "Pass options.removeUndefinedValues=true to remove undefined values from map/array/set.")
  | VNum NaN | VNum Infinity | VNum NegInfinity =>
      Throw (Error ("Special numeric value " ++ ToString v ++ " is not allowed"))
  | VNum NegZero => Ok (VNum (Int 0))
  | VArr l =>
      let* l' := (fix go (l : list value) : result (list value) :=
                    match l with
                    | [] => Ok []
                    | x :: r =>
                        let* x' := marshall x in
                        let* r' := go r in
                        Ok (x' :: r')
                    end) l in
      Ok (VArr l')
  | VObj o =>
      let* o' := (fix go (o : object) : result object :=
                    match o with
                    | [] => Ok []
                    | kv :: r =>
                        let* x' := marshall (snd kv) in
                        let* r' := go r in
                        Ok ((fst kv, x') :: r')
                    end) o in
      Ok (VObj o')
  | _ => Ok v
  end.

(** The attributes of an Item or of a Key: an attribute whose value is
    undefined is left out without complaint, the others are marshalled. *)
Fixpoint marshall_attributes (o : object) : result object :=
  match o with
  | [] => Ok []
  | (k, VUndefined) :: r => marshall_attributes r
  | (k, v) :: r =>
      let* v' := marshall v in
      let* r' := marshall_attributes r in
      Ok ((k, v') :: r')
  end.

(** The Item or Key of a command, which has to be an object. *)
Definition marshall_input (v : value) : result object :=
  match v with
  | VObj o => marshall_attributes o
  | _ => Throw (ServiceException "ValidationException")
  end.

Definition has_type (t : key_type) (v : value) : bool :=
  match t, v with
  | S, VStr s => negb (s =? "")
  | N, VNum (Int _) => true
  | _, _ => false
  end.

Definition key_eqb (a b : value) : bool :=
  match a, b with
  | VStr x, VStr y => x =? y
  | VNum (Int x), VNum (Int y) => (x =? y)%Z
  | _, _ => false
  end.

(** The key attributes of an item or of a key object, when they fit the
    schema of the table. *)
Definition key_of (t : table) (o : object) : option (value * option value) :=
  match lookup "PK" o with
  | Some pk =>
      if has_type (PK_type t) pk then
        match SK_type t with
        | None => Some (pk, None)
        | Some ty =>
            match lookup "SK" o with
            | Some sk => if has_type ty sk then Some (pk, Some sk) else None
            | None => None
            end
        end
      else None
  | None => None
  end.

Definition same_key (a b : value * option value) : bool :=
  key_eqb (fst a) (fst b) &&
  match snd a, snd b with
  | Some x, Some y => key_eqb x y
  | None, None => true
  | _, _ => false
  end.

Definition keyed (t : table) (k : value * option value) (it : object) : bool :=
  match key_of t it with
  | Some k' => same_key k k'
  | None => false
  end.

(** A key object names the key attributes and nothing else. *)
Definition key_arity (t : table) : nat :=
  match SK_type t with Some _ => 2 | None => 1 end.

Fixpoint store (t : table) (k : value * option value) (item : object)
    (l : list object) : list object :=
  match l with
  | [] => [item]
  | it :: r => if keyed t k it then item :: r else it :: store t k item r
  end.

Definition with_items (t : table) (l : list object) : table :=
  {| TableName := TableName t; PK_type := PK_type t; SK_type := SK_type t;
     items := l |}.

Definition not_found : error := ServiceException "ResourceNotFoundException".
Definition invalid : error := ServiceException "ValidationException".

(** The table a command names: a name that is no string (DYNAMODB_TABLE
    unset) is a validation error, the name of another table is not found. *)
Definition named (t : table) (tn : value) : result unit :=
  match tn with
  | VStr s => if s =? TableName t then Ok tt else Throw not_found
  | _ => Throw invalid
  end.

Definition send (c : DynamoDBDocumentClient) (command : Command) (t : table)
  : result Output * table :=
  match command with
  | GetCommand tn key =>
      match (let* k := marshall_input key in
             let* _ := named t tn in
             match key_of t k with
             | Some kk =>
                 if Nat.eqb (List.length k) (key_arity t)
                 then Ok (GetCommandOutput (find (keyed t kk) (items t)))
                 else Throw invalid
             | None => Throw invalid
             end) with
      | r => (r, t)
      end
  | PutCommand tn item =>
      match (let* it := marshall_input item in
             let* _ := named t tn in
             match key_of t it with
             | Some kk => Ok (kk, it)
             | None => Throw invalid
             end) with
      | Ok (kk, it) =>
          (Ok (PutCommandOutput None), with_items t (store t kk it (items t)))
      | Throw e => (Throw e, t)
      | Unmodelled => (Unmodelled, t)
      end
  | DeleteCommand tn key =>
      match (let* k := marshall_input key in
             let* _ := named t tn in
             match key_of t k with
             | Some kk =>
                 if Nat.eqb (List.length k) (key_arity t) then Ok kk
                 else Throw invalid
             | None => Throw invalid
             end) with
      | Ok kk =>
          (Ok (DeleteCommandOutput None),
           with_items t (filter (fun it => negb (keyed t kk it)) (items t)))
      | Throw e => (Throw e, t)
      | Unmodelled => (Unmodelled, t)
      end
  | ScanCommand tn VUndefined _ =>
      match named t tn with
      | Ok _ => (Ok (ScanCommandOutput (items t) None), t)
      | Throw e => (Throw e, t)
      | Unmodelled => (Unmodelled, t)
      end
  | ScanCommand _ _ _ | QueryCommand _ _ _ | UpdateCommand _ _ _ _ =>
      (Unmodelled, t)
  end.

End MemoryTable.

(** ** Vocabulary of the statements *)

Module Shape.
Import JS.

Fixpoint distinct (ks : list string) : bool :=
  match ks with
  | [] => true
  | k :: ks' => negb (existsb (String.eqb k) ks') && distinct ks'
  end.

(** Own-property order: the array indices first, ascending, then the other
    keys. *)
Fixpoint own_key_order (ks : list string) : bool :=
  match ks with
  | [] => true
  | k :: ks' =>
      match array_index k with
      | Some n =>
          forallb (fun k' => match array_index k' with
                             | Some n' => (n <? n')%N
                             | None => true
                             end) ks'
      | None =>
          forallb (fun k' => match array_index k' with
                             | Some _ => false
                             | None => true
                             end) ks'
      end && own_key_order ks'
  end.

Definition keys_ok (o : object) : bool :=
  distinct (map fst o) && own_key_order (map fst o).

(** The values of the model that are JavaScript values: integers are safe
    integers, the property list of an object has distinct keys in
    own-property order. *)
Fixpoint well_formed (v : value) : bool :=
  match v with
  | VNum (Int z) => is_safe_integer z
  | VArr l => forallb well_formed l
  | VObj o => keys_ok o && forallb (fun kv => well_formed (snd kv)) o
  | _ => true
  end.

(** The JSON-representable values: null, booleans, safe integers other
    than the negative zero, strings, and arrays and objects of such
    values. *)
Fixpoint json_representable (v : value) : bool :=
  match v with
  | VUndefined => false
  | VNull | VBool _ | VStr _ => true
  | VNum (Int z) => is_safe_integer z
  | VNum _ => false
  | VArr l => forallb json_representable l
  | VObj o => keys_ok o && forallb (fun kv => json_representable (snd kv)) o
  end.

(** The value JSON.parse gives back on the text JSON.stringify wrote for
    [v]: special numbers and undefined array elements become null, the
    negative zero becomes 0, undefined properties are dropped. *)
Fixpoint revived (v : value) : value :=
  match v with
  | VNum NaN | VNum Infinity | VNum NegInfinity => VNull
  | VNum NegZero => VNum (Int 0)
  | VArr l =>
      VArr (map (fun e => match e with
                          | VUndefined => VNull
                          | _ => revived e
                          end) l)
  | VObj o =>
      VObj (flat_map (fun kv => match snd kv with
                                | VUndefined => []
                                | _ => [(fst kv, revived (snd kv))]
                                end) o)
  | _ => v
  end.

(** The text that may follow a value inside a serialization: nothing, a
    comma or a closing bracket. *)
Definition delimited (rest : string) : bool :=
  match rest with
  | "" => true
  | String c _ => (c =? ",")%char || (c =? "]")%char || (c =? "}")%char
  end.

(** The first character of a serialized value. *)
Definition value_head (c : ascii) : bool :=
  (c =? "n")%char || (c =? "t")%char || (c =? "f")%char || (c =? dquote)%char ||
  (c =? "[")%char || (c =? "{")%char || (c =? "-")%char ||
  match JSON.digit c with Some _ => true | None => false end.

(** Fuel that lets the parser read back the serialization of a value. *)
Fixpoint cost (v : value) : nat :=
  match v with
  | VArr l => Datatypes.S (list_sum (map (fun e => Datatypes.S (cost e)) l))
  | VObj o => Datatypes.S (list_sum (map (fun kv => Datatypes.S (cost (snd kv))) o))
  | _ => 1
  end.

(** The text of one array element and the element read back. *)
Definition element_text (e : value) : string :=
  match JSON.SerializeJSONProperty e with
  | Some s => s
  | None => "null"
  end.

Definition element_revived (e : value) : value :=
  match e with
  | VUndefined => VNull
  | _ => revived e
  end.

(** The text of one object member (none for an undefined property) and the
    property read back. *)
Definition member_text (kv : string * value) : list string :=
  match JSON.SerializeJSONProperty (snd kv) with
  | Some s => [JSON.QuoteJSONString (fst kv) ++ ":" ++ s]
  | None => []
  end.

Definition member_revived (kv : string * value) : list (string * value) :=
  match snd kv with
  | VUndefined => []
  | _ => [(fst kv, revived (snd kv))]
  end.

(** One unfolding of the three parsing functions, the recursive calls
    abstracted: the shape shared by every amount of fuel. *)
Definition value_step
    (elements : string -> bool -> list value -> JSON.presult value)
    (members : string -> bool -> object -> JSON.presult value)
    (s : string) : JSON.presult value :=
  match JSON.skip_ws s with
  | "" => JSON.PSyntax
  | String c r =>
      if (c =? "n")%char then JSON.literal "ull" VNull r
      else if (c =? "t")%char then JSON.literal "rue" (VBool true) r
      else if (c =? "f")%char then JSON.literal "alse" (VBool false) r
      else if (c =? dquote)%char then
        match JSON.parse_chars r with
        | JSON.POk ex k r' => JSON.POk ex (VStr k) r'
        | JSON.PSyntax => JSON.PSyntax
        | JSON.PFuel => JSON.PFuel
        end
      else if (c =? "[")%char then
        match JSON.skip_ws r with
        | String c' r' =>
            if (c' =? "]")%char then JSON.POk true (VArr []) r'
            else elements (String c' r') true []
        | "" => JSON.PSyntax
        end
      else if (c =? "{")%char then
        match JSON.skip_ws r with
        | String c' r' =>
            if (c' =? "}")%char then JSON.POk true (VObj []) r'
            else members (String c' r') true []
        | "" => JSON.PSyntax
        end
      else
        match JSON.parse_number (String c r) with
        | JSON.POk ex n r' => JSON.POk ex (VNum n) r'
        | JSON.PSyntax => JSON.PSyntax
        | JSON.PFuel => JSON.PFuel
        end
  end.

Definition elements_step
    (pvalue : string -> JSON.presult value)
    (elements : string -> bool -> list value -> JSON.presult value)
    (s : string) (ex : bool) (acc : list value) : JSON.presult value :=
  match pvalue s with
  | JSON.POk ex1 v r =>
      match JSON.skip_ws r with
      | String c r' =>
          if (c =? ",")%char then elements r' (ex && ex1) (acc ++ [v])%list
          else if (c =? "]")%char then JSON.POk (ex && ex1) (VArr (acc ++ [v])%list) r'
          else JSON.PSyntax
      | "" => JSON.PSyntax
      end
  | JSON.PSyntax => JSON.PSyntax
  | JSON.PFuel => JSON.PFuel
  end.

Definition members_step
    (pvalue : string -> JSON.presult value)
    (members : string -> bool -> object -> JSON.presult value)
    (s : string) (ex : bool) (acc : object) : JSON.presult value :=
  match JSON.skip_ws s with
  | "" => JSON.PSyntax
  | String q r =>
      if (q =? dquote)%char then
        match JSON.parse_chars r with
        | JSON.POk ex1 k r1 =>
            match JSON.skip_ws r1 with
            | String c r2 =>
                if (c =? ":")%char then
                  match pvalue r2 with
                  | JSON.POk ex2 v r3 =>
                      match JSON.skip_ws r3 with
                      | String c' r4 =>
                          if (c' =? ",")%char then
                            members r4 (ex && ex1 && ex2) (define k v acc)
                          else if (c' =? "}")%char then
                            JSON.POk (ex && ex1 && ex2) (VObj (define k v acc)) r4
                          else JSON.PSyntax
                      | "" => JSON.PSyntax
                      end
                  | JSON.PSyntax => JSON.PSyntax
                  | JSON.PFuel => JSON.PFuel
                  end
                else JSON.PSyntax
            | "" => JSON.PSyntax
            end
        | JSON.PSyntax => JSON.PSyntax
        | JSON.PFuel => JSON.PFuel
        end
      else JSON.PSyntax
  end.

(** The first character of a number literal. *)
Definition number_head (c : ascii) : bool :=
  match JSON.digit c with
  | Some _ => true
  | None => (c =? "-")%char
  end.

(** What the induction gives for one value. *)
Definition reads_back (v : value) : Prop :=
  well_formed v = true ->
  forall s, JSON.SerializeJSONProperty v = Some s ->
  forall fuel rest, cost v <= fuel -> delimited rest = true ->
  JSON.parse_value fuel (s ++ rest) = JSON.POk true (revived v) rest.

(** The credential resolution order in the words of the specification:
    the identity pool id when it is present, handed with the region to the
    federated-identity provider; else the static pair when both of its
    halves are present; else the configuration error. *)
Definition spec_credentials (region identityPoolId accessKeyId secretAccessKey : value)
  : result Sdk.Credentials :=
  if truthy identityPoolId then
    let* provider := Sdk.new_CognitoIdentityClient region in
    Ok (Sdk.fromCognitoIdentityPool provider identityPoolId)
  else if truthy accessKeyId && truthy secretAccessKey then
    Ok (Sdk.StaticCredentials accessKeyId secretAccessKey)
  else Throw (Error "Insufficient credentials provided").

(** The environment supplies a usable credential default. *)
Definition env_credentials (env : Sdk.ProcessEnv) : bool :=
  truthy (Sdk.env_value (Sdk.AWS_IDENTITY_POOL_ID env)) ||
  (truthy (Sdk.env_value (Sdk.AWS_ACCESS_KEY_ID env)) &&
   truthy (Sdk.env_value (Sdk.AWS_SECRET_ACCESS_KEY env))).

(** The parser accepts the serialization of the value, whatever it reads
    from it. *)
Definition accepted (v : value) : Prop :=
  forall s, JSON.SerializeJSONProperty v = Some s ->
  forall fuel rest, cost v <= fuel -> delimited rest = true ->
  exists ex v', JSON.parse_value fuel (s ++ rest) = JSON.POk ex v' rest.


End Shape.

(** ** Recording what is sent *)

Module Trace.
Import Sdk.

(** A service that also keeps the list of the commands it received, in
    order of arrival. *)
Definition logged {World : Type}
    (send : DynamoDBDocumentClient -> Command -> World -> result Output * World)
    (c : DynamoDBDocumentClient) (command : Command) (wl : World * list Command)
  : result Output * (World * list Command) :=
  let (r, w') := send c command (fst wl) in
  (r, (w', (snd wl ++ [command])%list)).

End Trace.


(** ** Concrete settings used to run the operations *)

Module Scenario.
Import JS Sdk.

(** Server-side configuration through the environment, as in the README. *)
Definition env : ProcessEnv := {|
  DYNAMODB_TABLE := Some "cute";
  AWS_REGION := Some "us-east-1";
  AWS_IDENTITY_POOL_ID := None;
  AWS_ACCESS_KEY_ID := Some "AKIAEXAMPLE";
  AWS_SECRET_ACCESS_KEY := Some "secret"
|}.

(** Only the table name is set. *)
Definition bare_env : ProcessEnv := {|
  DYNAMODB_TABLE := Some "cute";
  AWS_REGION := None;
  AWS_IDENTITY_POOL_ID := None;
  AWS_ACCESS_KEY_ID := None;
  AWS_SECRET_ACCESS_KEY := None
|}.

(** A table keyed by PK alone and one keyed by PK and SK, both strings. *)
Definition table_pk (rows : list object) : MemoryTable.table := {|
  MemoryTable.TableName := "cute";
  MemoryTable.PK_type := MemoryTable.S;
  MemoryTable.SK_type := None;
  MemoryTable.items := rows
|}.

Definition table_pk_sk (rows : list object) : MemoryTable.table := {|
  MemoryTable.TableName := "cute";
  MemoryTable.PK_type := MemoryTable.S;
  MemoryTable.SK_type := Some MemoryTable.S;
  MemoryTable.items := rows
|}.

Definition handle : DynamoDBDocumentClient :=
  from (NewDynamoDBClient (VStr "us-east-1")
          (StaticCredentials (VStr "AKIAEXAMPLE") (VStr "secret"))).

(** Before init, and after a successful init. *)
Definition fresh (t : MemoryTable.table) : CuteDynamo.state :=
  {| CuteDynamo.client := None; CuteDynamo.world := t |}.

Definition ready (t : MemoryTable.table) : CuteDynamo.state :=
  {| CuteDynamo.client := Some handle; CuteDynamo.world := t |}.

(** [{name: "A", age: 1}] *)
Definition person : value := VObj [("name", VStr "A"); ("age", VNum (Int 1))].

(** [{a: NaN, b: undefined, c: [undefined, -0]}], a value JSON cannot
    represent as it is. *)
Definition lossy : value :=
  VObj [("a", VNum NaN); ("b", VUndefined);
        ("c", VArr [VUndefined; VNum NegZero])].

(** A configuration object that sets the four fields. *)
Definition full_options : object :=
  [("region", VStr "eu-west-1"); ("identityPoolId", VStr "");
   ("accessKeyId", VStr "AKIAOPTION"); ("secretAccessKey", VStr "option-secret")].


(** Client-side configuration through the environment: an identity pool
    id, next to a static key pair that must not be used. *)
Definition pool_env : ProcessEnv := {|
  DYNAMODB_TABLE := Some "cute";
  AWS_REGION := Some "us-east-1";
  AWS_IDENTITY_POOL_ID := Some "us-east-1:exampleId";
  AWS_ACCESS_KEY_ID := Some "AKIAEXAMPLE";
  AWS_SECRET_ACCESS_KEY := Some "secret"
|}.


End Scenario.



(** * Properties *)

Import JS Sdk.

(** ** Strings *)

Lemma append_assoc (a b c : string) : (a ++ b) ++ c = a ++ (b ++ c).
Proof.
  induction a as [|x a IH]; simpl; [reflexivity | now rewrite IH].
Qed.

Lemma append_cons (c : ascii) (a b : string) :
  String c a ++ b = String c (a ++ b).
Proof. reflexivity. Qed.

Lemma append_nil_r (a : string) : a ++ "" = a.
Proof.
  induction a as [|x a IH]; simpl; [reflexivity | now rewrite IH].
Qed.

Lemma length_append (a b : string) :
  String.length (a ++ b) = String.length a + String.length b.
Proof.
  induction a as [|x a IH]; simpl; [reflexivity | now rewrite IH].
Qed.

(** ** The string literal: QuoteJSONString is undone by parse_chars *)

Lemma parse_chars_escape (c : ascii) (s : string) :
  JSON.parse_chars (JSON.escape c ++ s) = JSON.pcons true c (JSON.parse_chars s).
Proof.
  destruct c as [[|] [|] [|] [|] [|] [|] [|] [|]]; reflexivity.
Qed.

Lemma parse_chars_escape_all (s rest : string) :
  JSON.parse_chars (JSON.escape_all s ++ String dquote rest) = JSON.POk true s rest.
Proof.
  induction s as [|c s IH]; simpl.
  - reflexivity.
  - rewrite append_assoc, parse_chars_escape, IH. reflexivity.
Qed.

Lemma parse_chars_quote (s rest : string) :
  exists body, JSON.QuoteJSONString s ++ rest = String dquote body /\
               JSON.parse_chars body = JSON.POk true s rest.
Proof.
  exists (JSON.escape_all s ++ String dquote rest). split.
  - unfold JSON.QuoteJSONString. simpl. now rewrite append_assoc.
  - apply parse_chars_escape_all.
Qed.

(** ** Number literals *)

Ltac by_char c := destruct c as [[|] [|] [|] [|] [|] [|] [|] [|]].

Lemma delimited_head (c : ascii) (r : string) :
  Shape.delimited (String c r) = true ->
  JSON.digit c = None /\ JSON.is_ws c = false /\
  (c =? ".")%char = false /\ (c =? "e")%char = false /\ (c =? "E")%char = false.
Proof.
  by_char c; simpl; intros H; try discriminate H; repeat split.
Qed.

Lemma read_digits_string_of_uint (d : uint) (rest : string) :
  Shape.delimited rest = true ->
  JSON.read_digits (NilEmpty.string_of_uint d ++ rest) = (d, rest).
Proof.
  intros Hrest.
  induction d as [|d IH|d IH|d IH|d IH|d IH|d IH|d IH|d IH|d IH|d IH];
    simpl; try (rewrite IH; reflexivity).
  destruct rest as [|c r]; [reflexivity|].
  simpl. destruct (delimited_head c r Hrest) as [-> _]. reflexivity.
Qed.

Lemma to_uint_no_leading_zero (p : positive) :
  JSON.leading_zero (Pos.to_uint p) = false.
Proof.
  destruct (Pos.to_uint p) as [|u| | | | | | | | | ] eqn:E; try reflexivity.
  destruct u as [|u'| | | | | | | | | ] eqn:Eu; try reflexivity; exfalso.
  all: assert (Hfix : unorm (Pos.to_uint p) = Pos.to_uint p)
         by (rewrite <- (Unsigned.to_of (Pos.to_uint p)), Unsigned.of_to; reflexivity).
  all: rewrite E, unorm_D0 in Hfix.
  all: match type of Hfix with
       | unorm ?w = _ =>
           assert (Hn : w <> Nil) by discriminate;
           pose proof (nb_digits_unorm w Hn) as Hlen;
           rewrite Hfix in Hlen; simpl in Hlen; lia
       end.
Qed.

Lemma number_of_literal_integer (neg : bool) (d : uint) :
  Z.of_uint d <> 0%Z ->
  is_safe_integer (Z.of_uint d) = true ->
  JSON.number_of_literal neg d Nil 0 =
    Some (Int (if neg then (- Z.of_uint d)%Z else Z.of_uint d)).
Proof.
  intros Hnz Hsafe. unfold JSON.number_of_literal.
  rewrite app_nil_r. simpl nb_digits.
  destruct (Z.eqb_spec (Z.of_uint d) 0) as [E|_]; [contradiction|].
  replace (0 - Z.of_nat 0)%Z with 0%Z by reflexivity.
  replace (Z.of_uint d * 10 ^ 0)%Z with (Z.of_uint d) by (rewrite Z.pow_0_r; lia).
  change (0 <=? 0)%Z with true. cbv iota.
  rewrite Hsafe. reflexivity.
Qed.

Lemma read_fraction_delimited (rest : string) :
  Shape.delimited rest = true -> JSON.read_fraction rest = Some (Nil, rest).
Proof.
  destruct rest as [|c r]; [reflexivity|]. intros H.
  destruct (delimited_head c r H) as (_ & _ & Hdot & _). simpl. now rewrite Hdot.
Qed.

Lemma read_exponent_delimited (rest : string) :
  Shape.delimited rest = true -> JSON.read_exponent rest = Some (0%Z, rest).
Proof.
  destruct rest as [|c r]; [reflexivity|]. intros H.
  destruct (delimited_head c r H) as (_ & _ & _ & He & HE). simpl.
  now rewrite He, HE.
Qed.

Lemma parse_unsigned_positive (neg : bool) (p : positive) (rest : string) :
  is_safe_integer (Z.pos p) = true ->
  Shape.delimited rest = true ->
  JSON.parse_unsigned neg (NilEmpty.string_of_uint (Pos.to_uint p) ++ rest) =
    JSON.POk true (Int (if neg then Z.neg p else Z.pos p)) rest.
Proof.
  intros Hsafe Hrest. unfold JSON.parse_unsigned.
  rewrite read_digits_string_of_uint by assumption.
  rewrite to_uint_no_leading_zero.
  rewrite read_fraction_delimited, read_exponent_delimited by assumption.
  assert (HZ : Z.of_uint (Pos.to_uint p) = Z.pos p)
    by (unfold Z.of_uint; rewrite Unsigned.of_to; reflexivity).
  rewrite number_of_literal_integer; rewrite HZ; try assumption; try discriminate.
  pose proof (Unsigned.to_uint_nonnil p) as Hnil.
  destruct (Pos.to_uint p); try contradiction; destruct neg; reflexivity.
Qed.

Lemma string_of_uint_head (d : uint) (rest : string) :
  d <> Nil ->
  exists c r, NilEmpty.string_of_uint d ++ rest = String c r /\
              JSON.digit c <> None.
Proof.
  intros Hd. destruct d; try contradiction; simpl; eexists; eexists;
    (split; [reflexivity | discriminate]).
Qed.

Lemma nilzero_nonnil (d : uint) :
  d <> Nil -> NilZero.string_of_uint d = NilEmpty.string_of_uint d.
Proof. destruct d; [contradiction | reflexivity ..]. Qed.

Lemma parse_number_minus (s : string) :
  JSON.parse_number (String "-" s) = JSON.parse_unsigned true s.
Proof. reflexivity. Qed.

Lemma parse_number_plain (c : ascii) (r : string) :
  (c =? "-")%char = false ->
  JSON.parse_number (String c r) = JSON.parse_unsigned false (String c r).
Proof. intros H. unfold JSON.parse_number. now rewrite H. Qed.

Lemma is_safe_integer_neg (p : positive) :
  is_safe_integer (Z.neg p) = is_safe_integer (Z.pos p).
Proof. unfold is_safe_integer. simpl Z.abs. reflexivity. Qed.

Lemma parse_number_zero (rest : string) :
  Shape.delimited rest = true ->
  JSON.parse_number (String "0" rest) = JSON.POk true (Int 0) rest.
Proof.
  intros Hrest.
  rewrite parse_number_plain by reflexivity.
  unfold JSON.parse_unsigned.
  assert (E : JSON.read_digits (String "0" rest) = (D0 Nil, rest)).
  { apply (read_digits_string_of_uint (D0 Nil) rest Hrest). }
  rewrite E. cbv beta iota. change (JSON.leading_zero (D0 Nil)) with false.
  cbv iota.
  rewrite read_fraction_delimited, read_exponent_delimited by assumption.
  reflexivity.
Qed.

(** A safe integer written by Number::toString is read back by the number
    parser. *)
Lemma parse_number_toString (z : Z) (rest : string) :
  is_safe_integer z = true ->
  Shape.delimited rest = true ->
  JSON.parse_number (Number_toString (Int z) ++ rest) = JSON.POk true (Int z) rest.
Proof.
  intros Hsafe Hrest. destruct z as [|p|p].
  - apply parse_number_zero. assumption.
  - unfold Number_toString, Z.to_int, NilZero.string_of_int.
    rewrite nilzero_nonnil by apply Unsigned.to_uint_nonnil.
    destruct (string_of_uint_head (Pos.to_uint p) rest (Unsigned.to_uint_nonnil p))
      as (c & r & E & Hc).
    assert (Hminus : (c =? "-")%char = false)
      by (destruct (Ascii.eqb_spec c "-"); [subst c; now elim Hc | reflexivity]).
    rewrite E, parse_number_plain, <- E by assumption.
    apply (parse_unsigned_positive false p rest Hsafe Hrest).
  - unfold Number_toString, Z.to_int, NilZero.string_of_int.
    rewrite nilzero_nonnil by apply Unsigned.to_uint_nonnil.
    change (String "-" (NilEmpty.string_of_uint (Pos.to_uint p)) ++ rest)
      with (String "-" (NilEmpty.string_of_uint (Pos.to_uint p) ++ rest)).
    rewrite parse_number_minus.
    rewrite is_safe_integer_neg in Hsafe.
    apply (parse_unsigned_positive true p rest Hsafe Hrest).
Qed.

Lemma toString_head (z : Z) (rest : string) :
  exists c r, Number_toString (Int z) ++ rest = String c r /\
              Shape.number_head c = true.
Proof.
  destruct z as [|p|p]; simpl Number_toString.
  - eexists; eexists; split; reflexivity.
  - rewrite nilzero_nonnil by apply Unsigned.to_uint_nonnil.
    destruct (string_of_uint_head (Pos.to_uint p) rest (Unsigned.to_uint_nonnil p))
      as (c & r & E & Hc).
    exists c, r. split; [assumption|]. unfold Shape.number_head.
    destruct (JSON.digit c); [reflexivity | contradiction].
  - eexists; eexists; split; reflexivity.
Qed.

Lemma parse_value_number (fuel : nat) (c : ascii) (r : string) :
  Shape.number_head c = true ->
  JSON.parse_value (S fuel) (String c r) =
    match JSON.parse_number (String c r) with
    | JSON.POk ex n r' => JSON.POk ex (VNum n) r'
    | JSON.PSyntax => JSON.PSyntax
    | JSON.PFuel => JSON.PFuel
    end.
Proof.
  by_char c; intros H; try discriminate H; reflexivity.
Qed.

(** ** Own properties: defining the keys of a well-formed object in order *)

Lemma value_ind' (P : value -> Prop) :
  P VUndefined -> P VNull -> (forall b, P (VBool b)) -> (forall n, P (VNum n)) ->
  (forall s, P (VStr s)) ->
  (forall l, Forall P l -> P (VArr l)) ->
  (forall o, Forall (fun kv => P (snd kv)) o -> P (VObj o)) ->
  forall v, P v.
Proof.
  intros Hu Hn Hb Hnum Hs Ha Ho.
  fix IH 1. intros [ | | b | n | s | l | o].
  - exact Hu.
  - exact Hn.
  - apply Hb.
  - apply Hnum.
  - apply Hs.
  - apply Ha.
    exact ((fix go (l : list value) : Forall P l :=
              match l with
              | [] => Forall_nil P
              | x :: r => Forall_cons x (IH x) (go r)
              end) l).
  - apply Ho.
    exact ((fix go (o : list (string * value)) : Forall (fun kv => P (snd kv)) o :=
              match o with
              | [] => Forall_nil _
              | kv :: r => Forall_cons kv (IH (snd kv)) (go r)
              end) o).
Qed.

Lemma distinct_app_l (a b : list string) :
  Shape.distinct (a ++ b)%list = true -> Shape.distinct a = true.
Proof.
  induction a as [|k a IH]; simpl; [reflexivity|].
  rewrite existsb_app, negb_orb, !andb_true_iff. intros [[H1 _] H2].
  split; [assumption | now apply IH].
Qed.

Lemma own_key_order_app_l (a b : list string) :
  Shape.own_key_order (a ++ b)%list = true -> Shape.own_key_order a = true.
Proof.
  induction a as [|k a IH]; simpl; [reflexivity|].
  rewrite !andb_true_iff. intros [H1 H2]. split; [|now apply IH].
  destruct (array_index k); rewrite forallb_app, andb_true_iff in H1; apply H1.
Qed.

Lemma keys_ok_app_l (a b : object) :
  Shape.keys_ok (a ++ b)%list = true -> Shape.keys_ok a = true.
Proof.
  unfold Shape.keys_ok. rewrite map_app, !andb_true_iff. intros [H1 H2]. split.
  - eapply distinct_app_l; eassumption.
  - eapply own_key_order_app_l; eassumption.
Qed.

Lemma lookup_fresh (k : string) (v : value) (acc : object) :
  Shape.distinct (map fst (acc ++ [(k, v)])%list) = true -> lookup k acc = None.
Proof.
  induction acc as [|[k' v'] acc IH]; simpl; [reflexivity|].
  rewrite map_app, existsb_app, negb_orb, !andb_true_iff. simpl.
  intros [[_ H1] H2]. rewrite orb_false_r in H1.
  apply negb_true_iff in H1. rewrite H1. apply IH. now rewrite map_app.
Qed.

Lemma insert_index_last (n : N) (k : string) (v : value) (acc : object) :
  array_index k = Some n ->
  Shape.own_key_order (map fst (acc ++ [(k, v)])%list) = true ->
  insert_index n k v acc = (acc ++ [(k, v)])%list.
Proof.
  intros Hk. induction acc as [|[k' v'] acc IH]; simpl; [reflexivity|].
  rewrite !andb_true_iff. intros [H1 H2].
  rewrite map_app in H1. simpl in H1.
  destruct (array_index k') as [n'|];
    rewrite forallb_app, andb_true_iff in H1; destruct H1 as [_ H1];
    simpl in H1; rewrite Hk, andb_true_r in H1; [|discriminate].
  rewrite H1. f_equal. now apply IH.
Qed.

Lemma define_last (k : string) (v : value) (acc : object) :
  Shape.keys_ok (acc ++ [(k, v)])%list = true ->
  define k v acc = (acc ++ [(k, v)])%list.
Proof.
  unfold Shape.keys_ok. rewrite andb_true_iff. intros [Hd Ho].
  unfold define, has_own. rewrite (lookup_fresh k v acc Hd).
  destruct (array_index k) as [n|] eqn:E; [|reflexivity].
  now apply insert_index_last.
Qed.

(** Dropping properties keeps the keys distinct and in order. *)
Lemma keys_ok_revived (o : object) :
  Shape.keys_ok o = true ->
  Shape.keys_ok
    (flat_map (fun kv => match snd kv with
                         | VUndefined => []
                         | _ => [(fst kv, Shape.revived (snd kv))]
                         end) o) = true.
Proof.
  set (f := fun kv : string * value => _).
  assert (Hex : forall (q : string -> bool) l,
             existsb q (map fst (flat_map f l)) = true -> existsb q (map fst l) = true).
  { intros q l. induction l as [|[k v] l IH]; simpl; [trivial|].
    unfold f at 1. simpl. destruct v; simpl; rewrite ?orb_true_iff; intuition. }
  assert (Hall : forall (q : string -> bool) l,
             forallb q (map fst l) = true -> forallb q (map fst (flat_map f l)) = true).
  { intros q l. induction l as [|[k v] l IH]; simpl; [trivial|].
    unfold f at 1. simpl. rewrite andb_true_iff. intros [H1 H2].
    destruct v; simpl; rewrite ?H1; simpl; auto. }
  unfold Shape.keys_ok. rewrite !andb_true_iff. intros [Hd Ho]. split.
  - clear Ho. induction o as [|[k v] o IH]; simpl in *; [reflexivity|].
    apply andb_true_iff in Hd. destruct Hd as [H1 H2].
    assert (Hrest : Shape.distinct (map fst (flat_map f o)) = true) by auto.
    unfold f at 1. simpl. destruct v; simpl; try exact Hrest;
      rewrite Hrest, andb_true_r; apply negb_true_iff;
      apply negb_true_iff in H1;
      (destruct (existsb (String.eqb k) (map fst (flat_map f o))) eqn:E;
       [apply Hex in E; congruence | reflexivity]).
  - clear Hd. induction o as [|[k v] o IH]; simpl in *; [reflexivity|].
    apply andb_true_iff in Ho. destruct Ho as [H1 H2].
    assert (Hrest : Shape.own_key_order (map fst (flat_map f o)) = true) by auto.
    unfold f at 1. simpl. destruct v; simpl; try exact Hrest;
      rewrite Hrest, andb_true_r;
      (destruct (array_index k); apply Hall; exact H1).
Qed.

(** ** JSON.parse reads back what JSON.stringify wrote *)

Lemma value_head_facts (c : ascii) :
  Shape.value_head c = true ->
  JSON.is_ws c = false /\ (c =? "]")%char = false /\ (c =? "}")%char = false.
Proof.
  by_char c; intros H; try discriminate H; repeat split.
Qed.

Lemma number_head_value_head (c : ascii) :
  Shape.number_head c = true -> Shape.value_head c = true.
Proof.
  by_char c; intros H; try discriminate H; reflexivity.
Qed.

Lemma serialize_none (v : value) :
  JSON.SerializeJSONProperty v = None <-> v = VUndefined.
Proof.
  destruct v as [ | | [|] | n | s | l | o]; simpl; split; intros H;
    try discriminate H; reflexivity.
Qed.

Lemma serialize_head (v : value) (s rest : string) :
  JSON.SerializeJSONProperty v = Some s ->
  exists c r, s ++ rest = String c r /\ Shape.value_head c = true.
Proof.
  destruct v as [ | | [|] | n | x | l | o]; simpl; intros H;
    try discriminate H; injection H as <-;
    try (eexists; eexists; split; reflexivity).
  destruct n as [ | | | |z]; simpl is_finite; cbv iota;
    try (eexists; eexists; split; reflexivity).
  destruct (toString_head z rest) as (c & r & E & Hc).
  exists c, r. split; [assumption | now apply number_head_value_head].
Qed.

Lemma element_text_head (e : value) (rest : string) :
  exists c r, Shape.element_text e ++ rest = String c r /\ Shape.value_head c = true.
Proof.
  unfold Shape.element_text.
  destruct (JSON.SerializeJSONProperty e) as [s|] eqn:E.
  - eapply serialize_head; eassumption.
  - eexists; eexists; split; reflexivity.
Qed.

Lemma parse_value_open_bracket (fuel : nat) (c : ascii) (r : string) :
  Shape.value_head c = true ->
  JSON.parse_value (S fuel) (String "[" (String c r)) =
    JSON.parse_elements fuel (String c r) true [].
Proof.
  by_char c; intros H; try discriminate H; reflexivity.
Qed.

Lemma parse_elements_comma (fuel : nat) (s r : string) (ex ex1 : bool)
    (acc : list value) (v : value) :
  JSON.parse_value fuel s = JSON.POk ex1 v (String "," r) ->
  JSON.parse_elements (S fuel) s ex acc =
    JSON.parse_elements fuel r (ex && ex1) (acc ++ [v])%list.
Proof.
  intros H. cbn [JSON.parse_elements]. rewrite H. reflexivity.
Qed.

Lemma parse_elements_close (fuel : nat) (s r : string) (ex ex1 : bool)
    (acc : list value) (v : value) :
  JSON.parse_value fuel s = JSON.POk ex1 v (String "]" r) ->
  JSON.parse_elements (S fuel) s ex acc =
    JSON.POk (ex && ex1) (VArr (acc ++ [v])%list) r.
Proof.
  intros H. cbn [JSON.parse_elements]. rewrite H. reflexivity.
Qed.

Lemma parse_members_comma (fuel : nat) (body r2 r4 k : string) (ex ex1 ex2 : bool)
    (acc : object) (v : value) :
  JSON.parse_chars body = JSON.POk ex1 k (String ":" r2) ->
  JSON.parse_value fuel r2 = JSON.POk ex2 v (String "," r4) ->
  JSON.parse_members (S fuel) (String dquote body) ex acc =
    JSON.parse_members fuel r4 (ex && ex1 && ex2) (define k v acc).
Proof.
  intros H1 H2. cbn [JSON.parse_members]. cbn [JSON.skip_ws]. 
  change (JSON.is_ws dquote) with false. cbv iota.
  change (dquote =? dquote)%char with true. cbv iota.
  rewrite H1. cbn [JSON.skip_ws]. change (JSON.is_ws ":") with false. cbv iota.
  change (":" =? ":")%char with true. cbv iota.
  rewrite H2. reflexivity.
Qed.

Lemma parse_members_close (fuel : nat) (body r2 r4 k : string) (ex ex1 ex2 : bool)
    (acc : object) (v : value) :
  JSON.parse_chars body = JSON.POk ex1 k (String ":" r2) ->
  JSON.parse_value fuel r2 = JSON.POk ex2 v (String "}" r4) ->
  JSON.parse_members (S fuel) (String dquote body) ex acc =
    JSON.POk (ex && ex1 && ex2) (VObj (define k v acc)) r4.
Proof.
  intros H1 H2. cbn [JSON.parse_members]. cbn [JSON.skip_ws]. 
  change (JSON.is_ws dquote) with false. cbv iota.
  change (dquote =? dquote)%char with true. cbv iota.
  rewrite H1. cbn [JSON.skip_ws]. change (JSON.is_ws ":") with false. cbv iota.
  change (":" =? ":")%char with true. cbv iota.
  rewrite H2. reflexivity.
Qed.

Lemma reads_back_element (e : value) (fuel : nat) (rest : string) :
  Shape.reads_back e -> Shape.well_formed e = true ->
  Shape.cost e <= fuel -> Shape.delimited rest = true ->
  JSON.parse_value fuel (Shape.element_text e ++ rest) =
    JSON.POk true (Shape.element_revived e) rest.
Proof.
  intros IH Hwf Hfuel Hrest. unfold Shape.element_text.
  destruct (JSON.SerializeJSONProperty e) as [s|] eqn:E.
  - rewrite (IH Hwf s E fuel rest Hfuel Hrest).
    destruct e; try reflexivity. discriminate E.
  - apply serialize_none in E. subst e. simpl in Hfuel.
    destruct fuel as [|fuel]; [lia | reflexivity].
Qed.

Lemma parse_elements_serialize (l : list value) :
  Forall Shape.reads_back l -> forallb Shape.well_formed l = true -> l <> [] ->
  forall fuel rest acc,
    list_sum (map (fun e => S (Shape.cost e)) l) <= fuel ->
    JSON.parse_elements fuel
      (join "," (map Shape.element_text l) ++ String "]" rest) true acc =
    JSON.POk true (VArr (acc ++ map Shape.element_revived l)%list) rest.
Proof.
  induction 1 as [|e l He Hl IH]; intros Hwf Hne fuel rest acc Hfuel;
    [congruence|].
  simpl in Hwf. apply andb_true_iff in Hwf. destruct Hwf as [Hwe Hwl].
  simpl in Hfuel. destruct fuel as [|fuel]; [lia|].
  destruct l as [|e2 l'].
  - cbn [map join].
    rewrite (parse_elements_close fuel _ rest true true acc (Shape.element_revived e)).
    + reflexivity.
    + apply reads_back_element;
        first [assumption | reflexivity | simpl in Hfuel; lia].
  - change (join "," (map Shape.element_text (e :: e2 :: l')))
      with (Shape.element_text e ++ "," ++ join "," (map Shape.element_text (e2 :: l'))).
    rewrite append_assoc.
    rewrite (parse_elements_comma fuel _
               (join "," (map Shape.element_text (e2 :: l')) ++ String "]" rest)
               true true acc (Shape.element_revived e)).
    + rewrite IH; try assumption; try discriminate.
      * cbn [map]. now rewrite <- app_assoc.
      * simpl in *. lia.
    + simpl append. apply reads_back_element;
        first [assumption | reflexivity | simpl in Hfuel; lia].
Qed.

Lemma member_revived_defined (k : string) (v : value) :
  v <> VUndefined -> Shape.member_revived (k, v) = [(k, Shape.revived v)].
Proof. destruct v; intros H; try reflexivity. now elim H. Qed.

Lemma members_none (o : object) :
  flat_map Shape.member_text o = [] -> flat_map Shape.member_revived o = [].
Proof.
  induction o as [|[k v] o IH]; simpl; [reflexivity|].
  unfold Shape.member_text at 1. simpl.
  destruct (JSON.SerializeJSONProperty v) eqn:E; [discriminate|].
  apply serialize_none in E. subst v. simpl. exact IH.
Qed.

Lemma parse_members_serialize (o : object) :
  Forall (fun kv => Shape.reads_back (snd kv)) o ->
  forallb (fun kv => Shape.well_formed (snd kv)) o = true ->
  forall fuel rest acc,
    flat_map Shape.member_text o <> [] ->
    Shape.keys_ok (acc ++ flat_map Shape.member_revived o)%list = true ->
    list_sum (map (fun kv => S (Shape.cost (snd kv))) o) <= fuel ->
    JSON.parse_members fuel
      (join "," (flat_map Shape.member_text o) ++ String "}" rest) true acc =
    JSON.POk true (VObj (acc ++ flat_map Shape.member_revived o)%list) rest.
Proof.
  induction 1 as [|[k v] o Hv Ho IH]; intros Hwf fuel rest acc Hne Hkeys Hfuel;
    [now elim Hne|].
  simpl in Hwf, Hv. apply andb_true_iff in Hwf. destruct Hwf as [Hwv Hwo].
  simpl in Hfuel. destruct fuel as [|fuel]; [lia|].
  change (flat_map Shape.member_text ((k, v) :: o))
    with (Shape.member_text (k, v) ++ flat_map Shape.member_text o)%list in *.
  change (flat_map Shape.member_revived ((k, v) :: o))
    with (Shape.member_revived (k, v) ++ flat_map Shape.member_revived o)%list in *.
  destruct (JSON.SerializeJSONProperty v) as [s|] eqn:E.
  - assert (Hdef : v <> VUndefined) by (intros ->; discriminate E).
    assert (Et : Shape.member_text (k, v) = [JSON.QuoteJSONString k ++ ":" ++ s])
      by (unfold Shape.member_text; simpl; now rewrite E).
    rewrite Et in *. rewrite (member_revived_defined k v Hdef) in *.
    assert (Hacc : define k (Shape.revived v) acc = (acc ++ [(k, Shape.revived v)])%list).
    { apply define_last. apply (keys_ok_app_l _ (flat_map Shape.member_revived o)).
      rewrite <- app_assoc. exact Hkeys. }
    destruct (flat_map Shape.member_text o) as [|m ms] eqn:Ems.
    + rewrite (members_none o Ems) in *.
      destruct (parse_chars_quote k (":" ++ s ++ String "}" rest))
        as (body & Ebody & Hbody).
      assert (Etext : join "," ([JSON.QuoteJSONString k ++ ":" ++ s] ++ []) ++
                        String "}" rest = String dquote body).
      { rewrite <- Ebody, List.app_nil_r. cbn [join]. now rewrite !append_assoc. }
      rewrite Etext.
      rewrite (parse_members_close fuel body (s ++ String "}" rest) rest k
                 true true true acc (Shape.revived v)).
      * now rewrite Hacc.
      * exact Hbody.
      * apply Hv; first [assumption | reflexivity | lia].
    + destruct (parse_chars_quote k
                  (":" ++ s ++ "," ++ join "," (m :: ms) ++ String "}" rest))
        as (body & Ebody & Hbody).
      assert (Etext : join "," ([JSON.QuoteJSONString k ++ ":" ++ s] ++ m :: ms) ++
                        String "}" rest = String dquote body).
      { rewrite <- Ebody.
        change (join "," ([JSON.QuoteJSONString k ++ ":" ++ s] ++ m :: ms))
          with ((JSON.QuoteJSONString k ++ ":" ++ s) ++ "," ++ join "," (m :: ms)).
        now rewrite !append_assoc. }
      rewrite Etext.
      rewrite (parse_members_comma fuel body
                 (s ++ String "," (join "," (m :: ms) ++ String "}" rest))
                 (join "," (m :: ms) ++ String "}" rest) k
                 true true true acc (Shape.revived v)).
      * rewrite Hacc. rewrite <- Ems in *. rewrite IH; try assumption.
        -- now rewrite <- app_assoc.
        -- rewrite Ems. discriminate.
        -- rewrite <- app_assoc. exact Hkeys.
        -- lia.
      * exact Hbody.
      * apply Hv; first [assumption | reflexivity | lia].
  - apply serialize_none in E. subst v.
    change (Shape.member_text (k, VUndefined)) with (@nil string) in *.
    change (Shape.member_revived (k, VUndefined)) with (@nil (string * value)) in *.
    cbn [app] in *. apply IH; try assumption. lia.
Qed.

Lemma serialize_array (l : list value) :
  JSON.SerializeJSONProperty (VArr l) =
    Some ("[" ++ join "," (map Shape.element_text l) ++ "]").
Proof. reflexivity. Qed.

Lemma serialize_object (o : object) :
  JSON.SerializeJSONProperty (VObj o) =
    Some ("{" ++ join "," (flat_map Shape.member_text o) ++ "}").
Proof. reflexivity. Qed.

Lemma revived_array (l : list value) :
  Shape.revived (VArr l) = VArr (map Shape.element_revived l).
Proof. reflexivity. Qed.

Lemma revived_object (o : object) :
  Shape.revived (VObj o) = VObj (flat_map Shape.member_revived o).
Proof. reflexivity. Qed.

Lemma join_member_head (o : object) (rest : string) :
  flat_map Shape.member_text o <> [] ->
  exists body, join "," (flat_map Shape.member_text o) ++ rest = String dquote body.
Proof.
  induction o as [|[k v] o IH]; [intros H; now elim H|].
  cbn [flat_map]. unfold Shape.member_text at 1 3. cbn [fst snd].
  destruct (JSON.SerializeJSONProperty v) as [s|]; [intros _ | exact IH].
  simpl app. destruct (flat_map Shape.member_text o); eexists; reflexivity.
Qed.

(** The parser reads back the serialization of every well-formed value,
    whatever follows it, given the fuel [Shape.cost] counts. *)
Lemma parse_value_serialize (v : value) : Shape.reads_back v.
Proof.
  induction v as [ | | b | n | x | l IH | o IH] using value_ind';
    intros Hwf s Hs fuel rest Hfuel Hrest.
  - discriminate Hs.
  - injection Hs as <-. destruct fuel; [simpl in Hfuel; lia | reflexivity].
  - destruct fuel; [simpl in Hfuel; lia|].
    destruct b; injection Hs as <-; reflexivity.
  - destruct fuel; [simpl in Hfuel; lia|].
    simpl in Hs. injection Hs as <-.
    destruct n as [ | | | |z]; try reflexivity.
    + change (Shape.revived (VNum NegZero)) with (VNum (Int 0)).
      change (if is_finite NegZero then Number_toString NegZero else "null")
        with (Number_toString (Int 0)).
      destruct (toString_head 0 rest) as (c & r & E & Hc).
      rewrite E, parse_value_number, <- E by assumption.
      now rewrite parse_number_toString.
    + simpl in Hwf. simpl is_finite. cbv iota.
      destruct (toString_head z rest) as (c & r & E & Hc).
      rewrite E, parse_value_number, <- E by assumption.
      now rewrite parse_number_toString.
  - destruct fuel; [simpl in Hfuel; lia|].
    simpl in Hs. injection Hs as <-.
    destruct (parse_chars_quote x rest) as (body & -> & Hbody).
    cbn [JSON.parse_value JSON.skip_ws]. change (JSON.is_ws dquote) with false.
    cbv iota. change (dquote =? "n")%char with false.
    change (dquote =? "t")%char with false. change (dquote =? "f")%char with false.
    change (dquote =? dquote)%char with true. cbv iota. now rewrite Hbody.
  - rewrite serialize_array in Hs. injection Hs as <-. rewrite revived_array.
    simpl in Hwf. simpl in Hfuel. destruct fuel as [|fuel]; [lia|].
    destruct l as [|e l]; [reflexivity|].
    rewrite append_cons, append_assoc. change ("]" ++ rest) with (String "]" rest).
    assert (Hhead : exists c r,
               join "," (map Shape.element_text (e :: l)) ++ String "]" rest =
                 String c r /\ Shape.value_head c = true).
    { destruct l as [|e2 l'].
      - cbn [map join]. apply element_text_head.
      - change (join "," (map Shape.element_text (e :: e2 :: l')))
          with (Shape.element_text e ++ "," ++
                join "," (map Shape.element_text (e2 :: l'))).
        rewrite append_assoc. apply element_text_head. }
    destruct Hhead as (c & r & E & Hc).
    rewrite E, parse_value_open_bracket, <- E by assumption.
    rewrite parse_elements_serialize; try assumption; try discriminate.
    + reflexivity.
    + lia.
  - rewrite serialize_object in Hs. injection Hs as <-. rewrite revived_object.
    simpl in Hwf. apply andb_true_iff in Hwf. destruct Hwf as [Hkeys Hwf].
    simpl in Hfuel. destruct fuel as [|fuel]; [lia|].
    destruct (flat_map Shape.member_text o) as [|m ms] eqn:Ems.
    + rewrite (members_none o Ems). reflexivity.
    + rewrite append_cons, append_assoc. change ("}" ++ rest) with (String "}" rest).
      rewrite <- Ems.
      destruct (join_member_head o (String "}" rest)) as (body & Ebody);
        [rewrite Ems; discriminate|].
      rewrite Ebody.
      change (JSON.parse_value (S fuel) (String "{" (String dquote body)))
        with (JSON.parse_members fuel (String dquote body) true []).
      rewrite <- Ebody.
      rewrite parse_members_serialize; try assumption.
      * reflexivity.
      * rewrite Ems. discriminate.
      * simpl app. now apply keys_ok_revived.
      * lia.
Qed.

(** ** Fuel: the parser never needs more than [JSON.fuel_for] *)

Lemma parse_value_S (f : nat) (s : string) :
  JSON.parse_value (S f) s =
    Shape.value_step (JSON.parse_elements f) (JSON.parse_members f) s.
Proof. reflexivity. Qed.

Lemma parse_elements_S (f : nat) (s : string) (ex : bool) (acc : list value) :
  JSON.parse_elements (S f) s ex acc =
    Shape.elements_step (JSON.parse_value f) (JSON.parse_elements f) s ex acc.
Proof. reflexivity. Qed.

Lemma parse_members_S (f : nat) (s : string) (ex : bool) (acc : object) :
  JSON.parse_members (S f) s ex acc =
    Shape.members_step (JSON.parse_value f) (JSON.parse_members f) s ex acc.
Proof. reflexivity. Qed.

Ltac split_parser :=
  repeat match goal with
         | |- context [if ?b then _ else _] => destruct b
         | |- context [match JSON.skip_ws ?x with _ => _ end] =>
             destruct (JSON.skip_ws x)
         | |- context [match JSON.parse_chars ?x with _ => _ end] =>
             destruct (JSON.parse_chars x)
         | |- context [match JSON.parse_number ?x with _ => _ end] =>
             destruct (JSON.parse_number x)
         end.

(** Once a run ends without exhausting its fuel, one more unit changes
    nothing. *)
Lemma fuel_stable (f : nat) :
  (forall s, JSON.parse_value f s <> JSON.PFuel ->
             JSON.parse_value (S f) s = JSON.parse_value f s) /\
  (forall s ex acc, JSON.parse_elements f s ex acc <> JSON.PFuel ->
             JSON.parse_elements (S f) s ex acc = JSON.parse_elements f s ex acc) /\
  (forall s ex acc, JSON.parse_members f s ex acc <> JSON.PFuel ->
             JSON.parse_members (S f) s ex acc = JSON.parse_members f s ex acc).
Proof.
  induction f as [|f (IHv & IHe & IHm)].
  - repeat split; intros; exfalso; auto.
  - repeat split.
    + intros s. rewrite (parse_value_S (S f)), (parse_value_S f).
      unfold Shape.value_step. split_parser; auto.
    + intros s ex acc. rewrite (parse_elements_S (S f)), (parse_elements_S f).
      unfold Shape.elements_step.
      destruct (JSON.parse_value f s) as [ex1 v r| |] eqn:E.
      * rewrite IHv, E by (rewrite E; discriminate). split_parser; auto.
      * rewrite IHv, E by (rewrite E; discriminate). reflexivity.
      * intros H. now elim H.
    + intros s ex acc. rewrite (parse_members_S (S f)), (parse_members_S f).
      unfold Shape.members_step.
      destruct (JSON.skip_ws s) as [|q r]; [reflexivity|].
      destruct (q =? dquote)%char; [|reflexivity].
      destruct (JSON.parse_chars r) as [ex1 k r1| |]; try reflexivity.
      destruct (JSON.skip_ws r1) as [|c r2]; [reflexivity|].
      destruct (c =? ":")%char; [|reflexivity].
      destruct (JSON.parse_value f r2) as [ex2 v r3| |] eqn:E.
      * rewrite IHv, E by (rewrite E; discriminate). split_parser; auto.
      * rewrite IHv, E by (rewrite E; discriminate). reflexivity.
      * intros H. now elim H.
Qed.

Lemma fuel_monotone (f f' : nat) (s : string) :
  f <= f' -> JSON.parse_value f s <> JSON.PFuel ->
  JSON.parse_value f' s = JSON.parse_value f s.
Proof.
  induction 1 as [|f' Hle IH]; intros H; [reflexivity|].
  destruct (fuel_stable f') as (Hv & _).
  rewrite Hv; [now apply IH | now rewrite IH].
Qed.

(** *** Every successful step consumes input *)

Lemma skip_ws_length (s : string) :
  String.length (JSON.skip_ws s) <= String.length s.
Proof.
  induction s as [|c s IH]; simpl; [lia|].
  destruct (JSON.is_ws c); simpl; lia.
Qed.

Lemma strip_prefix_length (p s r : string) :
  JSON.strip_prefix p s = Some r -> String.length r <= String.length s.
Proof.
  revert s. induction p as [|a p IH]; intros s; simpl.
  - intros [= ->]. lia.
  - destruct s as [|b s]; [discriminate|].
    destruct (a =? b)%char; [|discriminate].
    intros H. apply IH in H. simpl. lia.
Qed.

Lemma literal_length (p : string) (v v' : value) (s r : string) (ex : bool) :
  JSON.literal p v s = JSON.POk ex v' r -> String.length r <= String.length s.
Proof.
  unfold JSON.literal. destruct (JSON.strip_prefix p s) eqn:E; [|discriminate].
  intros [= _ _ <-]. eapply strip_prefix_length; eassumption.
Qed.

Lemma pcons_ok (e : bool) (c : ascii) (x : JSON.presult string) (ex : bool)
    (k r : string) :
  JSON.pcons e c x = JSON.POk ex k r ->
  exists ex' k', x = JSON.POk ex' k' r.
Proof.
  destruct x; simpl; [|discriminate ..]. intros [= _ _ <-]. eauto.
Qed.

Lemma parse_chars_length (n : nat) :
  forall s ex k r, String.length s <= n ->
    JSON.parse_chars s = JSON.POk ex k r -> String.length r < String.length s.
Proof.
  induction n as [|n IH]; intros s ex k r Hn H.
  - destruct s; [discriminate H | simpl in Hn; lia].
  - destruct s as [|c s]; [discriminate H|]. simpl in Hn.
    cbn [JSON.parse_chars] in H.
    destruct (c =? dquote)%char.
    { injection H as _ _ <-. simpl. lia. }
    destruct (c =? "\")%char.
    + destruct s as [|e r1]; [discriminate H|].
      destruct (e =? "u")%char.
      * destruct r1 as [|h1 [|h2 [|h3 [|h4 r2]]]]; try discriminate H.
        destruct (JSON.hex4 h1 h2 h3 h4) as [m|]; [|discriminate H].
        destruct (m <? 256)%N; apply pcons_ok in H;
          destruct H as (ex' & k' & H); apply IH in H; simpl in *; lia.
      * destruct (JSON.unescape e); [|discriminate H].
        apply pcons_ok in H. destruct H as (ex' & k' & H).
        apply IH in H; simpl in *; lia.
    + destruct (N_of_ascii c <? 32)%N; [discriminate H|].
      apply pcons_ok in H. destruct H as (ex' & k' & H).
      apply IH in H; simpl in *; lia.
Qed.

Lemma read_digits_length (s : string) :
  String.length (snd (JSON.read_digits s)) <= String.length s /\
  (fst (JSON.read_digits s) <> Nil ->
   String.length (snd (JSON.read_digits s)) < String.length s).
Proof.
  induction s as [|c s [IH1 IH2]]; simpl.
  - split; [lia | intros H; now elim H].
  - destruct (JSON.digit c) as [D|].
    + destruct (JSON.read_digits s) as [d r]. simpl in *. split; intros; lia.
    + simpl. split; [lia | intros H; now elim H].
Qed.

Lemma read_fraction_length (s r : string) (f : uint) :
  JSON.read_fraction s = Some (f, r) -> String.length r <= String.length s.
Proof.
  destruct s as [|c s]; simpl.
  - intros [= _ <-]. simpl. lia.
  - destruct (c =? ".")%char.
    + pose proof (read_digits_length s) as [H _].
      destruct (JSON.read_digits s) as [d r']. simpl in H.
      destruct d; intros [= _ <-]; lia.
    + intros [= _ <-]. simpl. lia.
Qed.

Lemma read_exponent_digits_length (neg : bool) (s r : string) (e : Z) :
  JSON.read_exponent_digits neg s = Some (e, r) ->
  String.length r <= String.length s.
Proof.
  unfold JSON.read_exponent_digits.
  pose proof (read_digits_length s) as [H _].
  destruct (JSON.read_digits s) as [d r']. simpl in H.
  destruct d; intros [= _ <-]; lia.
Qed.

Lemma read_exponent_length (s r : string) (e : Z) :
  JSON.read_exponent s = Some (e, r) -> String.length r <= String.length s.
Proof.
  destruct s as [|c s]; simpl.
  - intros [= _ <-]. simpl. lia.
  - destruct ((c =? "e")%char || (c =? "E")%char).
    + destruct s as [|sg s']; [discriminate|].
      destruct (sg =? "-")%char; [|destruct (sg =? "+")%char];
        intros H; apply read_exponent_digits_length in H; simpl in *; lia.
    + intros [= _ <-]. simpl. lia.
Qed.

Lemma parse_unsigned_length (neg : bool) (s r : string) (ex : bool) (n : number) :
  JSON.parse_unsigned neg s = JSON.POk ex n r -> String.length r < String.length s.
Proof.
  unfold JSON.parse_unsigned.
  pose proof (read_digits_length s) as [_ H].
  destruct (JSON.read_digits s) as [i r0]. simpl in H.
  assert (Hgo : i <> Nil ->
            (if JSON.leading_zero i then JSON.PSyntax
             else match JSON.read_fraction r0 with
                  | None => JSON.PSyntax
                  | Some (f, r1) =>
                      match JSON.read_exponent r1 with
                      | None => JSON.PSyntax
                      | Some (e, r2) =>
                          match JSON.number_of_literal neg i f e with
                          | Some n => JSON.POk true n r2
                          | None => JSON.POk false NaN r2
                          end
                      end
                  end) = JSON.POk ex n r -> String.length r < String.length s).
  { intros Hi. specialize (H Hi).
    destruct (JSON.leading_zero i); [discriminate|].
    destruct (JSON.read_fraction r0) as [[f r1]|] eqn:Ef; [|discriminate].
    destruct (JSON.read_exponent r1) as [[e r2]|] eqn:Ee; [|discriminate].
    apply read_fraction_length in Ef. apply read_exponent_length in Ee.
    destruct (JSON.number_of_literal neg i f e); intros [= _ _ <-]; lia. }
  destruct i; [discriminate | apply Hgo; discriminate ..].
Qed.

Lemma parse_number_length (s r : string) (ex : bool) (n : number) :
  JSON.parse_number s = JSON.POk ex n r -> String.length r < String.length s.
Proof.
  destruct s as [|c s]; simpl; [discriminate|].
  destruct (c =? "-")%char; intros H; apply parse_unsigned_length in H;
    simpl in *; lia.
Qed.

Ltac split_parser_eqn :=
  repeat match goal with
         | |- context [if ?b then _ else _] => destruct b
         | |- context [match JSON.skip_ws ?x with _ => _ end] =>
             destruct (JSON.skip_ws x) eqn:?
         | |- context [match JSON.parse_chars ?x with _ => _ end] =>
             destruct (JSON.parse_chars x) eqn:?
         | |- context [match JSON.parse_number ?x with _ => _ end] =>
             destruct (JSON.parse_number x) eqn:?
         end.

Ltac length_facts :=
  repeat match goal with
         | H : JSON.skip_ws ?x = _ |- _ =>
             let L := fresh "L" in
             pose proof (skip_ws_length x) as L; rewrite H in L; clear H
         | H : JSON.parse_chars ?x = JSON.POk _ _ _ |- _ =>
             apply (parse_chars_length _ _ _ _ _ (le_n _)) in H
         | H : JSON.parse_number ?x = JSON.POk _ _ _ |- _ =>
             apply parse_number_length in H
         | H : JSON.literal _ _ _ = JSON.POk _ _ _ |- _ =>
             apply literal_length in H
         end.

Lemma fuel_consumes (f : nat) :
  (forall s ex v r, JSON.parse_value f s = JSON.POk ex v r ->
                    String.length r < String.length s) /\
  (forall s ex acc ex' v r, JSON.parse_elements f s ex acc = JSON.POk ex' v r ->
                    String.length r < String.length s) /\
  (forall s ex acc ex' v r, JSON.parse_members f s ex acc = JSON.POk ex' v r ->
                    String.length r < String.length s).
Proof.
  induction f as [|f (IHv & IHe & IHm)].
  - repeat split; intros; discriminate.
  - repeat split.
    + intros s ex v r. rewrite parse_value_S. unfold Shape.value_step.
      split_parser_eqn; intros H; try discriminate H; length_facts;
        try (injection H as _ _ <-); try (apply IHe in H); try (apply IHm in H);
        simpl in *; lia.
    + intros s ex acc ex' v r. rewrite parse_elements_S. unfold Shape.elements_step.
      destruct (JSON.parse_value f s) as [ex1 v1 r1| |] eqn:E; try discriminate.
      apply IHv in E.
      split_parser_eqn; intros H; try discriminate H; length_facts;
        try (injection H as _ _ <-); try (apply IHe in H); simpl in *; lia.
    + intros s ex acc ex' v r. rewrite parse_members_S. unfold Shape.members_step.
      destruct (JSON.skip_ws s) as [|q r0] eqn:E0; [discriminate|].
      destruct (q =? dquote)%char; [|discriminate].
      destruct (JSON.parse_chars r0) as [ex1 k r1| |] eqn:E1; try discriminate.
      destruct (JSON.skip_ws r1) as [|c r2] eqn:E2; [discriminate|].
      destruct (c =? ":")%char; [|discriminate].
      destruct (JSON.parse_value f r2) as [ex2 v2 r3| |] eqn:E3; try discriminate.
      apply IHv in E3.
      split_parser_eqn; intros H; try discriminate H; length_facts;
        try (injection H as _ _ <-); try (apply IHm in H); simpl in *; lia.
Qed.

(** *** The scanners of strings and numbers use no fuel *)

Lemma parse_chars_no_fuel (n : nat) :
  forall s, String.length s <= n -> JSON.parse_chars s <> JSON.PFuel.
Proof.
  assert (Hp : forall e c x, x <> JSON.PFuel -> JSON.pcons e c x <> JSON.PFuel)
    by (intros e c [ | | ] H; simpl; congruence).
  induction n as [|n IH]; intros s Hn.
  - destruct s; [discriminate | simpl in Hn; lia].
  - destruct s as [|c s]; [discriminate|]. simpl in Hn.
    cbn [JSON.parse_chars].
    destruct (c =? dquote)%char; [discriminate|].
    destruct (c =? "\")%char.
    + destruct s as [|e r1]; [discriminate|].
      destruct (e =? "u")%char.
      * destruct r1 as [|h1 [|h2 [|h3 [|h4 r2]]]]; try discriminate.
        destruct (JSON.hex4 h1 h2 h3 h4) as [m|]; [|discriminate].
        destruct (m <? 256)%N; apply Hp, IH; simpl in *; lia.
      * destruct (JSON.unescape e); [|discriminate].
        apply Hp, IH; simpl in *; lia.
    + destruct (N_of_ascii c <? 32)%N; [discriminate|].
      apply Hp, IH; lia.
Qed.

Lemma parse_number_no_fuel (s : string) : JSON.parse_number s <> JSON.PFuel.
Proof.
  assert (Hu : forall neg x, JSON.parse_unsigned neg x <> JSON.PFuel).
  { intros neg x. unfold JSON.parse_unsigned.
    destruct (JSON.read_digits x) as [i r0].
    assert (Hgo :
              (if JSON.leading_zero i then JSON.PSyntax
               else match JSON.read_fraction r0 with
                    | None => JSON.PSyntax
                    | Some (f, r1) =>
                        match JSON.read_exponent r1 with
                        | None => JSON.PSyntax
                        | Some (e, r2) =>
                            match JSON.number_of_literal neg i f e with
                            | Some n => JSON.POk true n r2
                            | None => JSON.POk false NaN r2
                            end
                        end
                    end) <> JSON.PFuel).
    { destruct (JSON.leading_zero i); [discriminate|].
      destruct (JSON.read_fraction r0) as [[f r1]|]; [|discriminate].
      destruct (JSON.read_exponent r1) as [[e r2]|]; [|discriminate].
      destruct (JSON.number_of_literal neg i f e); discriminate. }
    destruct i; [discriminate | exact Hgo ..]. }
  destruct s as [|c s]; simpl; [discriminate|].
  destruct (c =? "-")%char; apply Hu.
Qed.

Lemma literal_no_fuel (p : string) (v : value) (s : string) :
  JSON.literal p v s <> JSON.PFuel.
Proof. unfold JSON.literal. destruct (JSON.strip_prefix p s); discriminate. Qed.

Ltac no_fuel :=
  match goal with
  | H : JSON.parse_chars ?x = JSON.PFuel |- _ =>
      exfalso; exact (parse_chars_no_fuel _ x (le_n _) H)
  | H : JSON.parse_number ?x = JSON.PFuel |- _ =>
      exfalso; exact (parse_number_no_fuel x H)
  | |- JSON.literal _ _ _ <> JSON.PFuel => apply literal_no_fuel
  | |- _ <> JSON.PFuel => discriminate
  end.

(** Two units of fuel per character are enough, whatever the text. *)
Lemma fuel_sufficient (f : nat) :
  (forall s, 2 * String.length s + 1 <= f -> JSON.parse_value f s <> JSON.PFuel) /\
  (forall s ex acc, 2 * String.length s + 2 <= f ->
                    JSON.parse_elements f s ex acc <> JSON.PFuel) /\
  (forall s ex acc, 2 * String.length s + 2 <= f ->
                    JSON.parse_members f s ex acc <> JSON.PFuel).
Proof.
  induction f as [|f (IHv & IHe & IHm)].
  - repeat split; intros; lia.
  - destruct (fuel_consumes f) as (Cv & _ & _). repeat split.
    + intros s Hf. rewrite parse_value_S. unfold Shape.value_step.
      split_parser_eqn; try no_fuel; length_facts;
        [apply IHe | apply IHm]; simpl in *; lia.
    + intros s ex acc Hf. rewrite parse_elements_S. unfold Shape.elements_step.
      destruct (JSON.parse_value f s) as [ex1 v1 r1| |] eqn:E.
      * apply Cv in E. split_parser_eqn; try no_fuel; length_facts.
        apply IHe. simpl in *; lia.
      * discriminate.
      * exfalso. revert E. apply IHv. lia.
    + intros s ex acc Hf. rewrite parse_members_S. unfold Shape.members_step.
      destruct (JSON.skip_ws s) as [|q r0] eqn:E0; [discriminate|].
      destruct (q =? dquote)%char; [|discriminate].
      destruct (JSON.parse_chars r0) as [ex1 k r1| |] eqn:E1;
        [|discriminate | no_fuel].
      destruct (JSON.skip_ws r1) as [|c r2] eqn:E2; [discriminate|].
      destruct (c =? ":")%char; [|discriminate].
      length_facts.
      destruct (JSON.parse_value f r2) as [ex2 v2 r3| |] eqn:E3.
      * apply Cv in E3. split_parser_eqn; try no_fuel; length_facts.
        apply IHm. simpl in *; lia.
      * discriminate.
      * exfalso. revert E3. apply IHv. simpl in *; lia.
Qed.

(** JSON.parse never stops for lack of fuel: on every text the parser either
    reads a value or reports a syntax error. *)
Lemma parse_value_total (s : string) :
  JSON.parse_value (JSON.fuel_for s) s <> JSON.PFuel.
Proof.
  destruct (fuel_sufficient (JSON.fuel_for s)) as (H & _).
  apply H. unfold JSON.fuel_for. lia.
Qed.

(** ** JSON.parse after JSON.stringify *)

Lemma serialize_defined (v : value) :
  v <> VUndefined -> exists s, JSON.SerializeJSONProperty v = Some s.
Proof.
  intros H. destruct (JSON.SerializeJSONProperty v) as [s|] eqn:E; [eauto|].
  apply serialize_none in E. contradiction.
Qed.

Lemma serialize_nonempty (v : value) (s : string) :
  JSON.SerializeJSONProperty v = Some s -> (s =? "") = false.
Proof.
  intros H. destruct (serialize_head v s "" H) as (c & r & E & _).
  rewrite append_nil_r in E. subst s. reflexivity.
Qed.

(** On a well-formed value other than undefined, JSON.stringify yields a
    text that JSON.parse accepts, and the value read is [Shape.revived]. *)
Lemma parse_stringify (v : value) :
  Shape.well_formed v = true -> v <> VUndefined ->
  JSON.parse (JSON.stringify v) = Ok (Shape.revived v).
Proof.
  intros Hwf Hdef. destruct (serialize_defined v Hdef) as (s & Hs).
  unfold JSON.stringify. rewrite Hs. unfold JSON.parse. cbn [ToString].
  pose proof (parse_value_serialize v Hwf s Hs
                (Nat.max (Shape.cost v) (JSON.fuel_for s)) ""
                (Nat.le_max_l _ _) eq_refl) as Hbig.
  rewrite append_nil_r in Hbig.
  rewrite (fuel_monotone (JSON.fuel_for s) _ s (Nat.le_max_r _ _)
             (parse_value_total s)) in Hbig.
  rewrite Hbig. reflexivity.
Qed.

Lemma representable_well_formed (v : value) :
  Shape.json_representable v = true -> Shape.well_formed v = true.
Proof.
  induction v as [ | | b | n | x | l IH | o IH] using value_ind'; simpl;
    try reflexivity; try discriminate.
  - destruct n; try discriminate. trivial.
  - intros H. rewrite forallb_forall in *. rewrite Forall_forall in IH. auto.
  - rewrite !andb_true_iff. intros [Hk H]. split; [assumption|].
    rewrite forallb_forall in *. rewrite Forall_forall in IH. auto.
Qed.

Lemma revived_representable (v : value) :
  Shape.json_representable v = true -> Shape.revived v = v.
Proof.
  induction v as [ | | b | n | x | l IH | o IH] using value_ind';
    try reflexivity.
  - simpl. destruct n; try discriminate. reflexivity.
  - rewrite revived_array. simpl. intros H. f_equal.
    induction IH as [|e l He Hl IHl]; [reflexivity|].
    simpl in H. apply andb_true_iff in H. destruct H as [H1 H2].
    simpl. rewrite IHl by assumption. f_equal.
    unfold Shape.element_revived. destruct e; try discriminate H1; auto.
  - rewrite revived_object. simpl. rewrite andb_true_iff. intros [_ H]. f_equal.
    induction IH as [|[k e] o He Ho IHo]; [reflexivity|].
    simpl in H. apply andb_true_iff in H. destruct H as [H1 H2].
    cbn [flat_map]. rewrite IHo by assumption.
    rewrite member_revived_defined by (intros ->; discriminate H1).
    simpl in He. rewrite He by assumption. reflexivity.
Qed.

(** JSON.parse(JSON.stringify(v)) is v on the JSON-representable values. *)
Lemma parse_stringify_representable (v : value) :
  Shape.json_representable v = true -> JSON.parse (JSON.stringify v) = Ok v.
Proof.
  intros H. rewrite parse_stringify.
  - now rewrite revived_representable.
  - now apply representable_well_formed.
  - intros ->. discriminate H.
Qed.

(** ** Every serialization is syntactically valid *)

Lemma parse_unsigned_accepts (neg : bool) (p : positive) (rest : string) :
  Shape.delimited rest = true ->
  exists ex n,
    JSON.parse_unsigned neg (NilEmpty.string_of_uint (Pos.to_uint p) ++ rest) =
      JSON.POk ex n rest.
Proof.
  intros Hrest. unfold JSON.parse_unsigned.
  rewrite read_digits_string_of_uint by assumption.
  rewrite to_uint_no_leading_zero.
  rewrite read_fraction_delimited, read_exponent_delimited by assumption.
  pose proof (Unsigned.to_uint_nonnil p) as Hnil.
  destruct (JSON.number_of_literal neg (Pos.to_uint p) Nil 0);
    destruct (Pos.to_uint p); try contradiction; eauto.
Qed.

Lemma parse_number_accepts (z : Z) (rest : string) :
  Shape.delimited rest = true ->
  exists ex n,
    JSON.parse_number (Number_toString (Int z) ++ rest) = JSON.POk ex n rest.
Proof.
  intros Hrest. destruct z as [|p|p].
  - exists true, (Int 0). now apply parse_number_zero.
  - unfold Number_toString, Z.to_int, NilZero.string_of_int.
    rewrite nilzero_nonnil by apply Unsigned.to_uint_nonnil.
    destruct (string_of_uint_head (Pos.to_uint p) rest (Unsigned.to_uint_nonnil p))
      as (c & r & E & Hc).
    assert (Hminus : (c =? "-")%char = false)
      by (destruct (Ascii.eqb_spec c "-"); [subst c; now elim Hc | reflexivity]).
    rewrite E, parse_number_plain, <- E by assumption.
    now apply parse_unsigned_accepts.
  - unfold Number_toString, Z.to_int, NilZero.string_of_int.
    rewrite nilzero_nonnil by apply Unsigned.to_uint_nonnil.
    change (String "-" (NilEmpty.string_of_uint (Pos.to_uint p)) ++ rest)
      with (String "-" (NilEmpty.string_of_uint (Pos.to_uint p) ++ rest)).
    rewrite parse_number_minus. now apply parse_unsigned_accepts.
Qed.

Lemma accepted_element (e : value) (fuel : nat) (rest : string) :
  Shape.accepted e -> Shape.cost e <= fuel -> Shape.delimited rest = true ->
  exists ex v',
    JSON.parse_value fuel (Shape.element_text e ++ rest) = JSON.POk ex v' rest.
Proof.
  intros IH Hfuel Hrest. unfold Shape.element_text.
  destruct (JSON.SerializeJSONProperty e) as [s|] eqn:E.
  - exact (IH s E fuel rest Hfuel Hrest).
  - apply serialize_none in E. subst e. simpl in Hfuel.
    destruct fuel as [|fuel]; [lia | exists true, VNull; reflexivity].
Qed.

Lemma parse_elements_accepts (l : list value) :
  Forall Shape.accepted l -> l <> [] ->
  forall fuel rest ex acc,
    list_sum (map (fun e => S (Shape.cost e)) l) <= fuel ->
    exists ex' v',
      JSON.parse_elements fuel
        (join "," (map Shape.element_text l) ++ String "]" rest) ex acc =
      JSON.POk ex' v' rest.
Proof.
  induction 1 as [|e l He Hl IH]; intros Hne fuel rest ex acc Hfuel;
    [congruence|].
  simpl in Hfuel. destruct fuel as [|fuel]; [lia|].
  destruct l as [|e2 l'].
  - cbn [map join].
    destruct (accepted_element e fuel (String "]" rest) He) as (ex1 & v1 & H1);
      [simpl in Hfuel; lia | reflexivity |].
    rewrite (parse_elements_close fuel _ rest ex ex1 acc v1 H1). eauto.
  - change (join "," (map Shape.element_text (e :: e2 :: l')))
      with (Shape.element_text e ++ "," ++ join "," (map Shape.element_text (e2 :: l'))).
    rewrite !append_assoc.
    change ("," ++ join "," (map Shape.element_text (e2 :: l')) ++ String "]" rest)
      with (String "," (join "," (map Shape.element_text (e2 :: l')) ++
                        String "]" rest)).
    destruct (accepted_element e fuel
                (String "," (join "," (map Shape.element_text (e2 :: l')) ++
                             String "]" rest)) He) as (ex1 & v1 & H1);
      [simpl in Hfuel; lia | reflexivity |].
    rewrite (parse_elements_comma fuel _
               (join "," (map Shape.element_text (e2 :: l')) ++ String "]" rest)
               ex ex1 acc v1 H1).
    apply IH; [discriminate | simpl in *; lia].
Qed.

Lemma parse_members_accepts (o : object) :
  Forall (fun kv => Shape.accepted (snd kv)) o ->
  forall fuel rest ex acc,
    flat_map Shape.member_text o <> [] ->
    list_sum (map (fun kv => S (Shape.cost (snd kv))) o) <= fuel ->
    exists ex' v',
      JSON.parse_members fuel
        (join "," (flat_map Shape.member_text o) ++ String "}" rest) ex acc =
      JSON.POk ex' v' rest.
Proof.
  induction 1 as [|[k v] o Hv Ho IH]; intros fuel rest ex acc Hne Hfuel;
    [now elim Hne|].
  simpl in Hv. simpl in Hfuel. destruct fuel as [|fuel]; [lia|].
  change (flat_map Shape.member_text ((k, v) :: o))
    with (Shape.member_text (k, v) ++ flat_map Shape.member_text o)%list in *.
  destruct (JSON.SerializeJSONProperty v) as [s|] eqn:E.
  - assert (Et : Shape.member_text (k, v) = [JSON.QuoteJSONString k ++ ":" ++ s])
      by (unfold Shape.member_text; simpl; now rewrite E).
    rewrite Et in *.
    destruct (flat_map Shape.member_text o) as [|m ms] eqn:Ems.
    + destruct (parse_chars_quote k (":" ++ s ++ String "}" rest))
        as (body & Ebody & Hbody).
      assert (Etext : join "," ([JSON.QuoteJSONString k ++ ":" ++ s] ++ []) ++
                        String "}" rest = String dquote body).
      { rewrite <- Ebody, List.app_nil_r. cbn [join]. now rewrite !append_assoc. }
      rewrite Etext.
      destruct (Hv s E fuel (String "}" rest)) as (ex2 & v2 & H2);
        [lia | reflexivity |].
      rewrite (parse_members_close fuel body (s ++ String "}" rest) rest k
                 ex true ex2 acc v2 Hbody H2). eauto.
    + destruct (parse_chars_quote k
                  (":" ++ s ++ "," ++ join "," (m :: ms) ++ String "}" rest))
        as (body & Ebody & Hbody).
      assert (Etext : join "," ([JSON.QuoteJSONString k ++ ":" ++ s] ++ m :: ms) ++
                        String "}" rest = String dquote body).
      { rewrite <- Ebody.
        change (join "," ([JSON.QuoteJSONString k ++ ":" ++ s] ++ m :: ms))
          with ((JSON.QuoteJSONString k ++ ":" ++ s) ++ "," ++ join "," (m :: ms)).
        now rewrite !append_assoc. }
      rewrite Etext.
      destruct (Hv s E fuel
                  (String "," (join "," (m :: ms) ++ String "}" rest)))
        as (ex2 & v2 & H2); [lia | reflexivity |].
      rewrite (parse_members_comma fuel body
                 (s ++ String "," (join "," (m :: ms) ++ String "}" rest))
                 (join "," (m :: ms) ++ String "}" rest) k
                 ex true ex2 acc v2 Hbody H2).
      rewrite <- Ems in *. apply IH; [rewrite Ems; discriminate | lia].
  - apply serialize_none in E. subst v.
    change (Shape.member_text (k, VUndefined)) with (@nil string) in *.
    cbn [app] in *. apply IH; [assumption | simpl in Hfuel; lia].
Qed.

(** The parser accepts the serialization of every value of the model, safe
    or not, with its keys in order or not. *)
Lemma parse_value_accepts (v : value) : Shape.accepted v.
Proof.
  induction v as [ | | b | n | x | l IH | o IH] using value_ind';
    intros s Hs fuel rest Hfuel Hrest.
  - discriminate Hs.
  - injection Hs as <-. destruct fuel; [simpl in Hfuel; lia|].
    exists true, VNull. reflexivity.
  - destruct fuel; [simpl in Hfuel; lia|].
    destruct b; injection Hs as <-; eexists; eexists; reflexivity.
  - destruct fuel; [simpl in Hfuel; lia|].
    simpl in Hs. injection Hs as <-.
    destruct n as [ | | | |z]; try (eexists; eexists; reflexivity).
    + change (if is_finite NegZero then Number_toString NegZero else "null")
        with (Number_toString (Int 0)).
      destruct (toString_head 0 rest) as (c & r & E & Hc).
      rewrite E, parse_value_number, <- E by assumption.
      destruct (parse_number_accepts 0 rest Hrest) as (ex & m & ->). eauto.
    + simpl is_finite. cbv iota.
      destruct (toString_head z rest) as (c & r & E & Hc).
      rewrite E, parse_value_number, <- E by assumption.
      destruct (parse_number_accepts z rest Hrest) as (ex & m & ->). eauto.
  - destruct fuel; [simpl in Hfuel; lia|].
    simpl in Hs. injection Hs as <-.
    destruct (parse_chars_quote x rest) as (body & -> & Hbody).
    cbn [JSON.parse_value JSON.skip_ws]. change (JSON.is_ws dquote) with false.
    cbv iota. change (dquote =? "n")%char with false.
    change (dquote =? "t")%char with false. change (dquote =? "f")%char with false.
    change (dquote =? dquote)%char with true. cbv iota. rewrite Hbody. eauto.
  - rewrite serialize_array in Hs. injection Hs as <-.
    simpl in Hfuel. destruct fuel as [|fuel]; [lia|].
    destruct l as [|e l]; [exists true, (VArr []); reflexivity|].
    rewrite append_cons, append_assoc. change ("]" ++ rest) with (String "]" rest).
    assert (Hhead : exists c r,
               join "," (map Shape.element_text (e :: l)) ++ String "]" rest =
                 String c r /\ Shape.value_head c = true).
    { destruct l as [|e2 l'].
      - cbn [map join]. apply element_text_head.
      - change (join "," (map Shape.element_text (e :: e2 :: l')))
          with (Shape.element_text e ++ "," ++
                join "," (map Shape.element_text (e2 :: l'))).
        rewrite append_assoc. apply element_text_head. }
    destruct Hhead as (c & r & E & Hc).
    rewrite E, parse_value_open_bracket, <- E by assumption.
    apply parse_elements_accepts; [assumption | discriminate | lia].
  - rewrite serialize_object in Hs. injection Hs as <-.
    simpl in Hfuel. destruct fuel as [|fuel]; [lia|].
    destruct (flat_map Shape.member_text o) as [|m ms] eqn:Ems.
    + exists true, (VObj []). reflexivity.
    + rewrite append_cons, append_assoc. change ("}" ++ rest) with (String "}" rest).
      rewrite <- Ems.
      destruct (join_member_head o (String "}" rest)) as (body & Ebody);
        [rewrite Ems; discriminate|].
      rewrite Ebody.
      change (JSON.parse_value (S fuel) (String "{" (String dquote body)))
        with (JSON.parse_members fuel (String dquote body) true []).
      rewrite <- Ebody.
      apply parse_members_accepts; [assumption | rewrite Ems; discriminate | lia].
Qed.

(** Whatever JSON.stringify writes, JSON.parse finds no syntax error in. *)
Lemma stringify_syntactically_valid (v : value) (s : string) :
  JSON.stringify v = VStr s -> JSON.parse (VStr s) <> Throw SyntaxError.
Proof.
  unfold JSON.stringify.
  destruct (JSON.SerializeJSONProperty v) as [s'|] eqn:Hs; [|discriminate].
  intros [= ->]. unfold JSON.parse. cbn [ToString].
  destruct (parse_value_accepts v s Hs
              (Nat.max (Shape.cost v) (JSON.fuel_for s)) ""
              (Nat.le_max_l _ _) eq_refl) as (ex & v' & Hbig).
  rewrite append_nil_r in Hbig.
  rewrite (fuel_monotone (JSON.fuel_for s) _ s (Nat.le_max_r _ _)
             (parse_value_total s)) in Hbig.
  rewrite Hbig. cbn [JSON.skip_ws]. destruct ex; discriminate.
Qed.

(** * The item codec *)

Lemma spread_falsy (v : value) : truthy v = false -> spread v = [].
Proof.
  destruct v as [ | | b | n | s | l | o]; simpl; try reflexivity; try discriminate.
  destruct s; [reflexivity | discriminate].
Qed.

Lemma put_item_truthy (data pk sk : value) :
  truthy sk = true ->
  CuteDynamo.put_item data pk sk =
    [("PK", pk); ("SK", sk); ("JSON", JSON.stringify data)].
Proof.
  intros H. unfold CuteDynamo.put_item, JS.and. rewrite H. reflexivity.
Qed.

Lemma put_item_falsy (data pk sk : value) :
  truthy sk = false ->
  CuteDynamo.put_item data pk sk = [("PK", pk); ("JSON", JSON.stringify data)].
Proof.
  intros H. unfold CuteDynamo.put_item, JS.and. rewrite H, (spread_falsy sk H).
  reflexivity.
Qed.

Lemma get_key_truthy (pk sk : value) :
  truthy sk = true -> CuteDynamo.get_key pk sk = [("PK", pk); ("SK", sk)].
Proof.
  intros H. unfold CuteDynamo.get_key, JS.and. rewrite H. reflexivity.
Qed.

Lemma get_key_falsy (pk sk : value) :
  truthy sk = false -> CuteDynamo.get_key pk sk = [("PK", pk)].
Proof.
  intros H. unfold CuteDynamo.get_key, JS.and. rewrite H, (spread_falsy sk H).
  reflexivity.
Qed.

(** C2. The item built by put has an SK attribute exactly when the sort key
    is truthy, and then it is the sort key itself; with a falsy sort key
    (0, the empty string, null, false, undefined) the item is the one built
    for an omitted sort key, which has no SK attribute. *)
Theorem put_item_SK_iff_truthy (data pk sk : value) :
  has_own "SK" (CuteDynamo.put_item data pk sk) = truthy sk /\
  lookup "SK" (CuteDynamo.put_item data pk sk) =
    (if truthy sk then Some sk else None) /\
  has_own "SK" (CuteDynamo.put_item data pk VUndefined) = false /\
  CuteDynamo.put_item data pk (if truthy sk then sk else VUndefined) =
    CuteDynamo.put_item data pk sk.
Proof.
  destruct (truthy sk) eqn:H.
  - rewrite (put_item_truthy data pk sk H). repeat split.
  - rewrite (put_item_falsy data pk sk H).
    rewrite (put_item_falsy data pk VUndefined eq_refl). repeat split.
Qed.

(** C10. With a falsy sort key (0, the empty string, null, false) get builds
    the key with PK alone, the key of a call without sort key, and so sends
    the very request of that call: a falsy sort key addresses no item of
    its own. *)
Theorem get_key_falsy_sort_key {World : Type}
    (send : DynamoDBDocumentClient -> Command -> World -> result Output * World)
    (env : ProcessEnv) (pk sk : value) (st : CuteDynamo.state) :
  truthy sk = false ->
  CuteDynamo.get_key pk sk = [("PK", pk)] /\
  CuteDynamo.get_key pk sk = CuteDynamo.get_key pk VUndefined /\
  CuteDynamo.get send env pk sk st = CuteDynamo.get send env pk VUndefined st.
Proof.
  intros H. unfold CuteDynamo.get.
  rewrite (get_key_falsy pk sk H), (get_key_falsy pk VUndefined eq_refl).
  repeat split.
Qed.

Lemma get_key_falsy_sort_key_witness :
  truthy (VNum (Int 0)) = false /\
  CuteDynamo.get MemoryTable.send Scenario.env (VStr "K1") (VNum (Int 0))
    (Scenario.ready (Scenario.table_pk [])) =
  CuteDynamo.get MemoryTable.send Scenario.env (VStr "K1") VUndefined
    (Scenario.ready (Scenario.table_pk [])).
Proof.
  split; [reflexivity|].
  apply (get_key_falsy_sort_key MemoryTable.send Scenario.env (VStr "K1")
           (VNum (Int 0)) (Scenario.ready (Scenario.table_pk []))).
  reflexivity.
Defined.

(** C9, the claim as stated fails: for the data undefined the JSON attribute
    of the item is undefined, not a string. *)
Lemma put_item_undefined_data :
  lookup "JSON" (CuteDynamo.put_item VUndefined (VStr "K1") VUndefined) =
    Some VUndefined /\
  ~ (exists s, lookup "JSON" (CuteDynamo.put_item VUndefined (VStr "K1") VUndefined) =
                 Some (VStr s)).
Proof.
  split; [reflexivity|]. intros (s & H). discriminate H.
Qed.

(** C9, amended. Whatever the data, the item built by put has the
    attributes PK, SK (when the sort key is truthy) and JSON, in this order
    and no other, and its JSON attribute is what JSON.stringify returns for
    the data: a string or undefined.  Whenever it is a string, it is a
    syntactically valid serialization: JSON.parse finds no syntax error in
    it.  For the data undefined it is undefined. *)
Theorem put_item_attributes (data pk sk : value) :
  map fst (CuteDynamo.put_item data pk sk) =
    (if truthy sk then ["PK"; "SK"; "JSON"] else ["PK"; "JSON"]) /\
  lookup "JSON" (CuteDynamo.put_item data pk sk) = Some (JSON.stringify data) /\
  ((exists s, JSON.stringify data = VStr s) \/ JSON.stringify data = VUndefined) /\
  (forall s, JSON.stringify data = VStr s ->
             JSON.parse (VStr s) <> Throw SyntaxError) /\
  JSON.stringify VUndefined = VUndefined.
Proof.
  split; [|split; [|split; [|split]]].
  - destruct (truthy sk) eqn:H.
    + now rewrite (put_item_truthy data pk sk H).
    + now rewrite (put_item_falsy data pk sk H).
  - destruct (truthy sk) eqn:H.
    + now rewrite (put_item_truthy data pk sk H).
    + now rewrite (put_item_falsy data pk sk H).
  - unfold JSON.stringify. destruct (JSON.SerializeJSONProperty data); eauto.
  - intros s. apply stringify_syntactically_valid.
  - reflexivity.
Qed.

Lemma put_item_attributes_witness :
  exists s, JSON.stringify Scenario.lossy = VStr s /\
            JSON.parse (VStr s) <> Throw SyntaxError.
Proof.
  eexists. split; [reflexivity|].
  exact (proj1 (proj2 (proj2 (proj2
           (put_item_attributes Scenario.lossy (VStr "K1") (VStr "S1")))))
           _ eq_refl).
Defined.

(** * Access operations and the client handle *)

(** C4, the claim as stated fails: before init, get ends in the TypeError of
    reading a property of undefined, not in an error of its own that names
    the missing initialization. *)
Lemma get_before_init_type_error :
  fst (CuteDynamo.get MemoryTable.send Scenario.env (VStr "K1") VUndefined
         (Scenario.fresh (Scenario.table_pk []))) = Throw TypeError /\
  forall message,
    fst (CuteDynamo.get MemoryTable.send Scenario.env (VStr "K1") VUndefined
           (Scenario.fresh (Scenario.table_pk []))) <> Throw (Error message).
Proof.
  split; [reflexivity | intros message H; discriminate H].
Qed.

(** C4, amended. While the client handle is undefined, get and put fail with
    a TypeError and leave the handle and the store as they are, and so does
    every helper called with an undefined client: nothing is sent. *)
Theorem operations_before_init {World : Type}
    (send : DynamoDBDocumentClient -> Command -> World -> result Output * World)
    (env : ProcessEnv) (w : World) (data pk sk key item e1 e2 : value) :
  let st := {| CuteDynamo.client := None; CuteDynamo.world := w |} in
  CuteDynamo.get send env pk sk st = (Throw TypeError, st) /\
  CuteDynamo.put send env data pk sk st = (Throw TypeError, st) /\
  Helpers.get send env None key w = (Throw TypeError, w) /\
  Helpers.put send env None item w = (Throw TypeError, w) /\
  Helpers.updateItem send env None key e1 e2 w = (Throw TypeError, w) /\
  Helpers.deleteItem send env None key w = (Throw TypeError, w) /\
  Helpers.queryItems send env None e1 e2 w = (Throw TypeError, w) /\
  Helpers.scanTable send env None e1 e2 w = (Throw TypeError, w).
Proof.
  repeat split.
Qed.

(** C5. When the point lookup answers without an item, get resolves to null
    and throws nothing; a failure of the service is another outcome: get
    rejects with that very error. *)
Theorem get_absent_is_null {World : Type}
    (send : DynamoDBDocumentClient -> Command -> World -> result Output * World)
    (env : ProcessEnv) (c : DynamoDBDocumentClient) (pk sk : value)
    (w w' : World) (r : result Output) :
  send c (GetCommand (env_value (DYNAMODB_TABLE env))
            (VObj (CuteDynamo.get_key pk sk))) w = (r, w') ->
  let st := {| CuteDynamo.client := Some c; CuteDynamo.world := w |} in
  let st' := {| CuteDynamo.client := Some c; CuteDynamo.world := w' |} in
  (r = Ok (GetCommandOutput None) ->
   CuteDynamo.get send env pk sk st = (Ok VNull, st')) /\
  (forall e, r = Throw e -> CuteDynamo.get send env pk sk st = (Throw e, st')).
Proof.
  intros Hsend st st'. unfold CuteDynamo.get. cbn [CuteDynamo.client CuteDynamo.world st].
  rewrite Hsend. split.
  - intros ->. reflexivity.
  - intros e ->. reflexivity.
Qed.

Lemma get_absent_is_null_witness :
  CuteDynamo.get MemoryTable.send Scenario.env (VStr "K1") VUndefined
    (Scenario.ready (Scenario.table_pk [])) =
  (Ok VNull, Scenario.ready (Scenario.table_pk [])).
Proof.
  apply (get_absent_is_null MemoryTable.send Scenario.env Scenario.handle
           (VStr "K1") VUndefined (Scenario.table_pk []) (Scenario.table_pk [])
           (Ok (GetCommandOutput None))); reflexivity.
Defined.

(** C6, the failing input. A stored item whose JSON attribute is the empty
    string carries a JSON attribute, and the empty string has no
    deserialization: JSON.parse throws on it.  get tests the attribute for
    truthiness, skips the parse and hands the item back with the raw empty
    string. *)
Theorem get_skips_empty_JSON :
  JSON.parse (VStr "") = Throw SyntaxError /\
  has_own "JSON" [("PK", VStr "K1"); ("JSON", VStr "")] = true /\
  CuteDynamo.get MemoryTable.send Scenario.env (VStr "K1") VUndefined
    (Scenario.ready (Scenario.table_pk [[("PK", VStr "K1"); ("JSON", VStr "")]])) =
  (Ok (VObj [("PK", VStr "K1"); ("JSON", VStr "")]),
   Scenario.ready (Scenario.table_pk [[("PK", VStr "K1"); ("JSON", VStr "")]])).
Proof.
  repeat split.
Qed.

(** C7, the claim as stated fails: scanTable hands a stored item over with
    its JSON attribute as it is stored, malformed or not. *)
Lemma scanTable_passes_malformed_JSON :
  JSON.parse (VStr "{") = Throw SyntaxError /\
  Helpers.scanTable MemoryTable.send Scenario.env (Some Scenario.handle)
    VUndefined VUndefined
    (Scenario.table_pk [[("PK", VStr "K1"); ("JSON", VStr "{")]]) =
  (Ok (ScanCommandOutput [[("PK", VStr "K1"); ("JSON", VStr "{")]] None),
   Scenario.table_pk [[("PK", VStr "K1"); ("JSON", VStr "{")]]).
Proof.
  split; reflexivity.
Qed.

(** C7, amended. When the item of the response has for JSON attribute a
    non-empty string on which JSON.parse throws, get rejects with that
    SyntaxError.  queryItems and scanTable decode nothing: what they resolve
    to is the answer of the service to the one command they send. *)
Theorem get_surfaces_decode_error {World : Type}
    (send : DynamoDBDocumentClient -> Command -> World -> result Output * World)
    (env : ProcessEnv) (c : DynamoDBDocumentClient) (pk sk : value)
    (w w' : World) (response : Output) (item : object) (s : string) :
  send c (GetCommand (env_value (DYNAMODB_TABLE env))
            (VObj (CuteDynamo.get_key pk sk))) w = (Ok response, w') ->
  Item response = Some item ->
  lookup "JSON" item = Some (VStr s) ->
  s <> "" ->
  JSON.parse (VStr s) = Throw SyntaxError ->
  CuteDynamo.get send env pk sk
    {| CuteDynamo.client := Some c; CuteDynamo.world := w |} =
    (Throw SyntaxError, {| CuteDynamo.client := Some c; CuteDynamo.world := w' |}) /\
  (forall k e w0,
     Helpers.queryItems send env (Some c) k e w0 =
       send c (QueryCommand (env_value (DYNAMODB_TABLE env)) k e) w0) /\
  (forall f e w0,
     Helpers.scanTable send env (Some c) f e w0 =
       send c (ScanCommand (env_value (DYNAMODB_TABLE env)) f e) w0).
Proof.
  intros Hsend Hitem Hjson Hne Hparse. split; [|split; reflexivity].
  unfold CuteDynamo.get. cbn [CuteDynamo.client CuteDynamo.world].
  rewrite Hsend. unfold CuteDynamo.decode. rewrite Hitem.
  unfold get_own. rewrite Hjson. cbn [truthy].
  destruct (String.eqb_spec s "") as [->|_]; [now elim Hne|].
  cbn [negb]. rewrite Hparse. reflexivity.
Qed.

Lemma get_surfaces_decode_error_witness :
  CuteDynamo.get MemoryTable.send Scenario.env (VStr "K1") VUndefined
    (Scenario.ready (Scenario.table_pk [[("PK", VStr "K1"); ("JSON", VStr "{")]])) =
  (Throw SyntaxError,
   Scenario.ready (Scenario.table_pk [[("PK", VStr "K1"); ("JSON", VStr "{")]])).
Proof.
  apply (get_surfaces_decode_error MemoryTable.send Scenario.env Scenario.handle
           (VStr "K1") VUndefined
           (Scenario.table_pk [[("PK", VStr "K1"); ("JSON", VStr "{")]])
           (Scenario.table_pk [[("PK", VStr "K1"); ("JSON", VStr "{")]])
           (GetCommandOutput (Some [("PK", VStr "K1"); ("JSON", VStr "{")]))
           [("PK", VStr "K1"); ("JSON", VStr "{")] "{");
    try reflexivity. discriminate.
Defined.

(** * Credential resolution *)

Lemma truthy_and (a b : value) : truthy (JS.and a b) = truthy a && truthy b.
Proof. unfold JS.and. destruct (truthy a) eqn:E; [reflexivity | exact E]. Qed.

(** C3, the claim as stated fails: with the access key pair in the
    environment, init called with a region alone succeeds on the static
    path. *)
Lemma init_region_only_uses_environment :
  CuteDynamo.init Scenario.env (VObj [("region", VStr "eu-west-1")])
    (Scenario.fresh (Scenario.table_pk [])) =
  (Ok VUndefined,
   {| CuteDynamo.client :=
        Some (from (NewDynamoDBClient (VStr "eu-west-1")
                      (StaticCredentials (VStr "AKIAEXAMPLE") (VStr "secret"))));
      CuteDynamo.world := Scenario.table_pk [] |}) /\
  fst (CuteDynamo.init Scenario.env (VObj [("region", VStr "eu-west-1")])
         (Scenario.fresh (Scenario.table_pk []))) <>
    Throw (Error "Insufficient credentials provided").
Proof.
  split; [reflexivity | discriminate].
Qed.

(** C3, amended. On the four values it destructures (each option, or its
    environment variable when the option is undefined) init follows the
    order of the specification: identity pool first, then the static pair,
    else the error Insufficient credentials provided.  The credentials go
    with the region to the client constructor of the SDK, which refuses a
    given falsy region with Region is missing; every throw leaves the client
    as it was.  createDynamoDBClient does the same on the fields of its
    argument.  Called with a region alone, createDynamoDBClient always
    fails with Insufficient credentials provided, and init does when the
    environment supplies no credentials either. *)
Theorem init_credential_resolution {World : Type}
    (env : ProcessEnv) (options region : value) (st : @CuteDynamo.state World) :
  options <> VNull ->
  let opts := match options with VUndefined => VObj [] | _ => options end in
  let r := destructure "region" opts (env_value (AWS_REGION env)) in
  let id := destructure "identityPoolId" opts (env_value (AWS_IDENTITY_POOL_ID env)) in
  let ak := destructure "accessKeyId" opts (env_value (AWS_ACCESS_KEY_ID env)) in
  let sk := destructure "secretAccessKey" opts (env_value (AWS_SECRET_ACCESS_KEY env)) in
  CuteDynamo.init env options st =
    match (let* credentials := Shape.spec_credentials r id ak sk in
           new_DynamoDBClient r credentials) with
    | Ok dynamo =>
        (Ok VUndefined,
         {| CuteDynamo.client := Some (from dynamo);
            CuteDynamo.world := CuteDynamo.world st |})
    | Throw e => (Throw e, st)
    | Unmodelled => (Unmodelled, st)
    end /\
  (truthy id = false -> truthy ak && truthy sk = false ->
   CuteDynamo.init env options st =
     (Throw (Error "Insufficient credentials provided"), st)) /\
  (region_missing r = false -> truthy id = true ->
   CuteDynamo.init env options st =
     (Ok VUndefined,
      {| CuteDynamo.client :=
           Some (from (NewDynamoDBClient r
                         (fromCognitoIdentityPool (NewCognitoIdentityClient r) id)));
         CuteDynamo.world := CuteDynamo.world st |})) /\
  (region_missing r = false -> truthy id = false -> truthy ak && truthy sk = true ->
   CuteDynamo.init env options st =
     (Ok VUndefined,
      {| CuteDynamo.client :=
           Some (from (NewDynamoDBClient r (StaticCredentials ak sk)));
         CuteDynamo.world := CuteDynamo.world st |})) /\
  Index.createDynamoDBClient opts =
    (let* credentials :=
       Shape.spec_credentials
         (destructure "region" opts VUndefined)
         (destructure "identityPoolId" opts VUndefined)
         (destructure "accessKeyId" opts VUndefined)
         (destructure "secretAccessKey" opts VUndefined) in
     new_DynamoDBClient (destructure "region" opts VUndefined) credentials) /\
  (Shape.env_credentials env = false ->
   CuteDynamo.init env (VObj [("region", region)]) st =
     (Throw (Error "Insufficient credentials provided"), st)) /\
  Index.createDynamoDBClient (VObj [("region", region)]) =
    Throw (Error "Insufficient credentials provided").
Proof.
  intros Hnull opts r id ak sk.
  assert (Hopts : opts <> VNull) by (subst opts; destruct options; congruence).
  assert (Hund : opts <> VUndefined) by (subst opts; destruct options; congruence).
  assert (Hinit : CuteDynamo.init env options st =
            match (let* credentials := Shape.spec_credentials r id ak sk in
                   new_DynamoDBClient r credentials) with
            | Ok dynamo =>
                (Ok VUndefined,
                 {| CuteDynamo.client := Some (from dynamo);
                    CuteDynamo.world := CuteDynamo.world st |})
            | Throw e => (Throw e, st)
            | Unmodelled => (Unmodelled, st)
            end).
  { unfold CuteDynamo.init. fold opts.
    destruct opts eqn:Eo; try contradiction;
      fold r id ak sk; unfold Shape.spec_credentials; rewrite truthy_and;
      reflexivity. }
  split; [exact Hinit|].
  split; [|split; [|split; [|split; [|split]]]].
  - intros Hid Hkeys. rewrite Hinit. unfold Shape.spec_credentials.
    rewrite Hid, Hkeys. reflexivity.
  - intros Hr Hid. rewrite Hinit.
    unfold Shape.spec_credentials, new_CognitoIdentityClient, new_DynamoDBClient.
    rewrite Hid, Hr. reflexivity.
  - intros Hr Hid Hkeys. rewrite Hinit.
    unfold Shape.spec_credentials, new_DynamoDBClient.
    rewrite Hid, Hkeys. cbn [bind]. rewrite Hr. reflexivity.
  - unfold Index.createDynamoDBClient.
    destruct opts eqn:Eo; try contradiction;
      unfold Shape.spec_credentials; rewrite truthy_and; reflexivity.
  - intros Henv. unfold Shape.env_credentials in Henv.
    apply orb_false_iff in Henv. destruct Henv as [Hid Hkeys].
    unfold CuteDynamo.init.
    change (destructure "identityPoolId" (VObj [("region", region)])
              (env_value (AWS_IDENTITY_POOL_ID env)))
      with (env_value (AWS_IDENTITY_POOL_ID env)).
    change (destructure "accessKeyId" (VObj [("region", region)])
              (env_value (AWS_ACCESS_KEY_ID env)))
      with (env_value (AWS_ACCESS_KEY_ID env)).
    change (destructure "secretAccessKey" (VObj [("region", region)])
              (env_value (AWS_SECRET_ACCESS_KEY env)))
      with (env_value (AWS_SECRET_ACCESS_KEY env)).
    rewrite Hid, truthy_and, Hkeys. reflexivity.
  - reflexivity.
Qed.

Lemma init_credential_resolution_witness :
  CuteDynamo.init Scenario.bare_env (VObj [("region", VStr "us-east-1")])
    (Scenario.fresh (Scenario.table_pk [])) =
  (Throw (Error "Insufficient credentials provided"),
   Scenario.fresh (Scenario.table_pk [])).
Proof.
  refine (proj1 (proj2 (proj2 (proj2 (proj2 (proj2
            (init_credential_resolution Scenario.bare_env VUndefined
               (VStr "us-east-1") (Scenario.fresh (Scenario.table_pk [])) _)))))) _).
  - discriminate.
  - reflexivity.
Defined.

Lemma destructure_defined (k : string) (o : object) (dflt : value) :
  truthy (get_own k o) = true -> destructure k (VObj o) dflt = get_own k o.
Proof.
  unfold destructure. destruct (get_own k o); try reflexivity. discriminate.
Qed.

(** C8. When the identityPoolId init destructures is truthy, whether it
    comes from the configuration object or from AWS_IDENTITY_POOL_ID, init
    takes the federated path: the client it assigns is made of the region
    and of the identity pool id alone (or the constructor refuses the region
    and nothing is assigned).  Two calls whose configurations and
    environments agree on these two have the same outcome, whatever their
    accessKeyId and secretAccessKey, given or in the environment.  The same
    holds for createDynamoDBDocumentClient on the fields of its argument. *)
Theorem federated_path_ignores_static_keys {World : Type}
    (env env' : ProcessEnv) (options options' : value)
    (st : @CuteDynamo.state World) :
  options <> VNull -> options' <> VNull ->
  let opts := match options with VUndefined => VObj [] | _ => options end in
  let opts' := match options' with VUndefined => VObj [] | _ => options' end in
  let r := destructure "region" opts (env_value (AWS_REGION env)) in
  let id := destructure "identityPoolId" opts (env_value (AWS_IDENTITY_POOL_ID env)) in
  truthy id = true ->
  destructure "identityPoolId" opts' (env_value (AWS_IDENTITY_POOL_ID env')) = id ->
  destructure "region" opts' (env_value (AWS_REGION env')) = r ->
  CuteDynamo.init env options st =
    (if region_missing r then (Throw (Error "Region is missing"), st)
     else (Ok VUndefined,
           {| CuteDynamo.client :=
                Some (from (NewDynamoDBClient r
                              (fromCognitoIdentityPool (NewCognitoIdentityClient r) id)));
              CuteDynamo.world := CuteDynamo.world st |})) /\
  CuteDynamo.init env' options' st = CuteDynamo.init env options st /\
  (let rd := destructure "region" opts VUndefined in
   let idd := destructure "identityPoolId" opts VUndefined in
   truthy idd = true ->
   destructure "identityPoolId" opts' VUndefined = idd ->
   destructure "region" opts' VUndefined = rd ->
   Helpers.createDynamoDBDocumentClient opts =
     (if region_missing rd then Throw (Error "Region is missing")
      else Ok (from (NewDynamoDBClient rd
                       (fromCognitoIdentityPool (NewCognitoIdentityClient rd) idd)))) /\
   Helpers.createDynamoDBDocumentClient opts' =
     Helpers.createDynamoDBDocumentClient opts).
Proof.
  intros Hnull Hnull' opts opts' r id Hid Eid Er.
  assert (Hinit : forall e x,
            x <> VNull ->
            let xs := match x with VUndefined => VObj [] | _ => x end in
            let rx := destructure "region" xs (env_value (AWS_REGION e)) in
            let ix := destructure "identityPoolId" xs
                        (env_value (AWS_IDENTITY_POOL_ID e)) in
            truthy ix = true ->
            CuteDynamo.init e x st =
              (if region_missing rx then (Throw (Error "Region is missing"), st)
               else (Ok VUndefined,
                     {| CuteDynamo.client :=
                          Some (from (NewDynamoDBClient rx
                                        (fromCognitoIdentityPool
                                           (NewCognitoIdentityClient rx) ix)));
                        CuteDynamo.world := CuteDynamo.world st |}))).
  { intros e x Hx xs rx ix Hix. unfold CuteDynamo.init. fold xs.
    assert (Hxs : xs <> VNull) by (subst xs; destruct x; congruence).
    destruct xs eqn:Exs; try contradiction; fold rx ix; rewrite Hix;
      unfold new_CognitoIdentityClient, new_DynamoDBClient;
      destruct (region_missing rx) eqn:Erx; cbn [bind]; rewrite ?Erx; reflexivity. }
  assert (Hdoc : forall x,
            x <> VNull -> x <> VUndefined ->
            let rx := destructure "region" x VUndefined in
            let ix := destructure "identityPoolId" x VUndefined in
            truthy ix = true ->
            Helpers.createDynamoDBDocumentClient x =
              (if region_missing rx then Throw (Error "Region is missing")
               else Ok (from (NewDynamoDBClient rx
                                (fromCognitoIdentityPool
                                   (NewCognitoIdentityClient rx) ix))))).
  { intros x Hx Hu rx ix Hix. unfold Helpers.createDynamoDBDocumentClient.
    destruct x eqn:Ex; try contradiction; fold rx ix; rewrite Hix;
      unfold new_CognitoIdentityClient, new_DynamoDBClient;
      destruct (region_missing rx) eqn:Erx; cbn [bind]; rewrite ?Erx; reflexivity. }
  assert (Hopts : opts <> VNull /\ opts <> VUndefined)
    by (subst opts; destruct options; split; congruence).
  assert (Hopts' : opts' <> VNull /\ opts' <> VUndefined)
    by (subst opts'; destruct options'; split; congruence).
  split; [|split].
  - apply (Hinit env options Hnull). exact Hid.
  - rewrite (Hinit env options Hnull Hid).
    pose proof (Hinit env' options' Hnull') as H'. cbv zeta in H'.
    fold opts' in H'. rewrite Eid, Er in H'. exact (H' Hid).
  - intros rd idd Hidd Eidd Erd. split.
    + apply Hdoc; [apply Hopts | apply Hopts | exact Hidd].
    + rewrite (Hdoc opts (proj1 Hopts) (proj2 Hopts) Hidd).
      pose proof (Hdoc opts' (proj1 Hopts') (proj2 Hopts')) as H'. cbv zeta in H'.
      rewrite Eidd, Erd in H'. exact (H' Hidd).
Qed.

Lemma federated_path_ignores_static_keys_witness :
  CuteDynamo.init Scenario.pool_env
    (VObj [("accessKeyId", VStr "AKIAOTHER"); ("secretAccessKey", VStr "other")])
    (Scenario.fresh (Scenario.table_pk [])) =
  CuteDynamo.init Scenario.pool_env VUndefined
    (Scenario.fresh (Scenario.table_pk [])) /\
  CuteDynamo.init Scenario.pool_env VUndefined
    (Scenario.fresh (Scenario.table_pk [])) =
  (Ok VUndefined,
   {| CuteDynamo.client :=
        Some (from (NewDynamoDBClient (VStr "us-east-1")
                      (fromCognitoIdentityPool
                         (NewCognitoIdentityClient (VStr "us-east-1"))
                         (VStr "us-east-1:exampleId"))));
      CuteDynamo.world := Scenario.table_pk [] |}).
Proof.
  destruct (federated_path_ignores_static_keys
              Scenario.pool_env Scenario.pool_env VUndefined
              (VObj [("accessKeyId", VStr "AKIAOTHER"); ("secretAccessKey", VStr "other")])
              (Scenario.fresh (Scenario.table_pk [])))
    as (H1 & H2 & _); try reflexivity; try discriminate.
  split; [exact H2 | exact H1].
Defined.

(** * Put, then get *)

(** The decoding step of get on the item put built. *)
Lemma decode_put_item (data pk sk : value) :
  Shape.json_representable data = true ->
  CuteDynamo.decode (GetCommandOutput (Some (CuteDynamo.put_item data pk sk))) =
    Ok (VObj (define "JSON" data (CuteDynamo.put_item data pk sk))) /\
  get_own "JSON" (define "JSON" data (CuteDynamo.put_item data pk sk)) = data /\
  exists s, JSON.stringify data = VStr s.
Proof.
  intros Hrep.
  assert (Hdef : data <> VUndefined) by (intros ->; discriminate Hrep).
  destruct (serialize_defined data Hdef) as (s & Hs).
  assert (Hstr : JSON.stringify data = VStr s)
    by (unfold JSON.stringify; now rewrite Hs).
  pose proof (parse_stringify_representable data Hrep) as Hparse.
  rewrite Hstr in Hparse.
  pose proof (serialize_nonempty data s Hs) as Hne.
  unfold CuteDynamo.decode. cbn [Item].
  destruct (truthy sk) eqn:H.
  - rewrite (put_item_truthy data pk sk H), Hstr.
    change (get_own "JSON" [("PK", pk); ("SK", sk); ("JSON", VStr s)]) with (VStr s).
    cbn [truthy]. rewrite Hne. cbn [negb]. rewrite Hparse.
    repeat split. eauto.
  - rewrite (put_item_falsy data pk sk H), Hstr.
    change (get_own "JSON" [("PK", pk); ("JSON", VStr s)]) with (VStr s).
    cbn [truthy]. rewrite Hne. cbn [negb]. rewrite Hparse.
    repeat split. eauto.
Qed.

(** X11. Put, then get, for the values of the model that JSON represents
    (null, booleans, safe integers other than the negative zero, strings of
    code units below 256, arrays and objects of these).  Whenever the
    service acknowledges the write and answers the lookup of the same
    (pk, sk) with the item written, get resolves to that item with its JSON
    attribute replaced by the value given to put, PK (and SK) kept; put
    resolves to the acknowledgement.  In particular decoding the item put
    encodes gives the value back. *)
Theorem put_then_get_on_service {World : Type}
    (send : DynamoDBDocumentClient -> Command -> World -> result Output * World)
    (env : ProcessEnv) (c : DynamoDBDocumentClient) (data pk sk : value)
    (w w1 w2 : World) (ack : Output) :
  Shape.json_representable data = true ->
  send c (PutCommand (env_value (DYNAMODB_TABLE env))
            (VObj (CuteDynamo.put_item data pk sk))) w = (Ok ack, w1) ->
  send c (GetCommand (env_value (DYNAMODB_TABLE env))
            (VObj (CuteDynamo.get_key pk sk))) w1 =
    (Ok (GetCommandOutput (Some (CuteDynamo.put_item data pk sk))), w2) ->
  let returned := define "JSON" data (CuteDynamo.put_item data pk sk) in
  CuteDynamo.put send env data pk sk
    {| CuteDynamo.client := Some c; CuteDynamo.world := w |} =
    (Ok ack, {| CuteDynamo.client := Some c; CuteDynamo.world := w1 |}) /\
  CuteDynamo.get send env pk sk
    {| CuteDynamo.client := Some c; CuteDynamo.world := w1 |} =
    (Ok (VObj returned), {| CuteDynamo.client := Some c; CuteDynamo.world := w2 |}) /\
  get_own "JSON" returned = data /\
  get_own "PK" returned = pk /\
  lookup "SK" returned = (if truthy sk then Some sk else None) /\
  CuteDynamo.decode (GetCommandOutput (Some (CuteDynamo.put_item data pk sk))) =
    Ok (VObj returned).
Proof.
  intros Hrep Hput Hget returned.
  destruct (decode_put_item data pk sk Hrep) as (Hdec & Hjson & s & Hstr).
  repeat split.
  - unfold CuteDynamo.put. cbn [CuteDynamo.client CuteDynamo.world].
    rewrite Hput. reflexivity.
  - unfold CuteDynamo.get. cbn [CuteDynamo.client CuteDynamo.world].
    rewrite Hget, Hdec. reflexivity.
  - exact Hjson.
  - subst returned. destruct (truthy sk) eqn:H.
    + rewrite (put_item_truthy data pk sk H). reflexivity.
    + rewrite (put_item_falsy data pk sk H). reflexivity.
  - subst returned. destruct (truthy sk) eqn:H.
    + rewrite (put_item_truthy data pk sk H). reflexivity.
    + rewrite (put_item_falsy data pk sk H). reflexivity.
  - exact Hdec.
Qed.

Lemma put_then_get_on_service_witness :
  CuteDynamo.put MemoryTable.send Scenario.env Scenario.person (VStr "K1") (VStr "S1")
    (Scenario.ready (Scenario.table_pk_sk [])) =
    (Ok (PutCommandOutput None),
     Scenario.ready
       (Scenario.table_pk_sk
          [CuteDynamo.put_item Scenario.person (VStr "K1") (VStr "S1")])) /\
  CuteDynamo.get MemoryTable.send Scenario.env (VStr "K1") (VStr "S1")
    (Scenario.ready
       (Scenario.table_pk_sk
          [CuteDynamo.put_item Scenario.person (VStr "K1") (VStr "S1")])) =
    (Ok (VObj [("PK", VStr "K1"); ("SK", VStr "S1"); ("JSON", Scenario.person)]),
     Scenario.ready
       (Scenario.table_pk_sk
          [CuteDynamo.put_item Scenario.person (VStr "K1") (VStr "S1")])).
Proof.
  destruct (put_then_get_on_service MemoryTable.send Scenario.env Scenario.handle
              Scenario.person (VStr "K1") (VStr "S1")
              (Scenario.table_pk_sk [])
              (Scenario.table_pk_sk
                 [CuteDynamo.put_item Scenario.person (VStr "K1") (VStr "S1")])
              (Scenario.table_pk_sk
                 [CuteDynamo.put_item Scenario.person (VStr "K1") (VStr "S1")])
              (PutCommandOutput None) eq_refl eq_refl eq_refl)
    as (Hput & Hget & _).
  split; [exact Hput | exact Hget].
Defined.

(** * Further properties of init *)

(** X1. A failed init leaves the client handle and the store as they were:
    every throw comes before the assignment.  The errors of init are the
    TypeError of a null argument, Insufficient credentials provided, and
    the Region is missing of the client constructors of the SDK. *)
Theorem init_failure_keeps_client {World : Type}
    (env : ProcessEnv) (options : value) (st : @CuteDynamo.state World) (e : error) :
  fst (CuteDynamo.init env options st) = Throw e ->
  snd (CuteDynamo.init env options st) = st /\
  (e = TypeError \/ e = Error "Insufficient credentials provided" \/
   e = Error "Region is missing").
Proof.
  unfold CuteDynamo.init, new_CognitoIdentityClient, new_DynamoDBClient.
  destruct options as [ | | b | n | s | l | o]; cbn [fst snd];
    try (intros [= <-]; split; [reflexivity | now left]).
  all: match goal with
       | |- context [region_missing ?r] => destruct (region_missing r)
       end.
  all: match goal with
       | |- context [if truthy ?id then _ else _] => destruct (truthy id)
       end; cbn [bind fst snd]; try discriminate.
  all: try match goal with
       | |- context [if truthy ?ks then _ else _] => destruct (truthy ks)
       end; cbn [bind fst snd]; try discriminate.
  all: intros [= <-]; split; [reflexivity | auto].
Qed.

Lemma init_failure_keeps_client_witness :
  snd (CuteDynamo.init Scenario.bare_env (VObj [("accessKeyId", VStr "AKIAEXAMPLE")])
         (Scenario.ready (Scenario.table_pk []))) =
    Scenario.ready (Scenario.table_pk []).
Proof.
  apply (init_failure_keeps_client Scenario.bare_env
           (VObj [("accessKeyId", VStr "AKIAEXAMPLE")])
           (Scenario.ready (Scenario.table_pk []))
           (Error "Insufficient credentials provided")).
  reflexivity.
Defined.

(** X2. init never touches the store, and what it resolves to does not
    depend on the handle held before: calling it again replaces the handle
    by the one a first call would have built. *)
Theorem init_replaces_handle {World : Type}
    (env : ProcessEnv) (options : value) (c1 c2 : option DynamoDBDocumentClient)
    (w : World) :
  let st1 := {| CuteDynamo.client := c1; CuteDynamo.world := w |} in
  let st2 := {| CuteDynamo.client := c2; CuteDynamo.world := w |} in
  CuteDynamo.world (snd (CuteDynamo.init env options st1)) = w /\
  fst (CuteDynamo.init env options st1) = fst (CuteDynamo.init env options st2) /\
  match fst (CuteDynamo.init env options st1) with
  | Ok v =>
      v = VUndefined /\
      snd (CuteDynamo.init env options st1) = snd (CuteDynamo.init env options st2)
  | _ => True
  end.
Proof.
  unfold CuteDynamo.init, new_CognitoIdentityClient, new_DynamoDBClient.
  destruct options as [ | | b | n | s | l | o]; cbn [fst snd CuteDynamo.world];
    try (repeat split; fail).
  all: match goal with
       | |- context [region_missing ?r] => destruct (region_missing r)
       end.
  all: match goal with
       | |- context [if truthy ?id then _ else _] => destruct (truthy id)
       end; cbn [bind fst snd CuteDynamo.world];
    try (repeat split; fail).
  all: match goal with
       | |- context [if truthy ?ks then _ else _] => destruct (truthy ks)
       end; cbn [bind fst snd CuteDynamo.world]; repeat split.
Qed.

(** X3. init falls back on the environment alone for every argument that is
    not an object: undefined (the default parameter) and the primitives and
    arrays, which have none of the four properties.  null is no such
    argument: init(null) throws a TypeError; the two factories of the
    helper files have no default and throw it for undefined as well. *)
Theorem init_argument_edge_cases {World : Type}
    (env : ProcessEnv) (options : value) (st : @CuteDynamo.state World) :
  options <> VNull ->
  (forall o, options <> VObj o) ->
  CuteDynamo.init env options st = CuteDynamo.init env (VObj []) st /\
  CuteDynamo.init env VNull st = (Throw TypeError, st) /\
  Index.createDynamoDBClient VUndefined = Throw TypeError /\
  Index.createDynamoDBClient VNull = Throw TypeError /\
  Helpers.createDynamoDBDocumentClient VUndefined = Throw TypeError /\
  Helpers.createDynamoDBDocumentClient VNull = Throw TypeError.
Proof.
  intros Hnull Hobj. repeat split.
  destruct options as [ | | b | n | s | l | o]; try reflexivity.
  - now elim Hnull.
  - now elim (Hobj o).
Qed.

Lemma init_argument_edge_cases_witness :
  CuteDynamo.init Scenario.env VUndefined (Scenario.fresh (Scenario.table_pk [])) =
  CuteDynamo.init Scenario.env (VObj []) (Scenario.fresh (Scenario.table_pk [])).
Proof.
  refine (proj1 (init_argument_edge_cases Scenario.env VUndefined
                   (Scenario.fresh (Scenario.table_pk [])) _ _));
    intros; discriminate.
Defined.

(** X4. A field of the configuration object that is not undefined wins over
    its environment variable, truthy or not: init gives the same result in
    two environments that differ only in variables whose field is set.  An
    empty identityPoolId in the object thus switches the federated path off
    even when AWS_IDENTITY_POOL_ID is set. *)
Theorem init_options_override_environment {World : Type}
    (env env' : ProcessEnv) (o : object) (st : @CuteDynamo.state World) :
  (get_own "region" o <> VUndefined \/ AWS_REGION env = AWS_REGION env') ->
  (get_own "identityPoolId" o <> VUndefined \/
   AWS_IDENTITY_POOL_ID env = AWS_IDENTITY_POOL_ID env') ->
  (get_own "accessKeyId" o <> VUndefined \/
   AWS_ACCESS_KEY_ID env = AWS_ACCESS_KEY_ID env') ->
  (get_own "secretAccessKey" o <> VUndefined \/
   AWS_SECRET_ACCESS_KEY env = AWS_SECRET_ACCESS_KEY env') ->
  CuteDynamo.init env (VObj o) st = CuteDynamo.init env' (VObj o) st.
Proof.
  assert (Hd : forall k x y,
             (get_own k o <> VUndefined \/ x = y) ->
             destructure k (VObj o) (env_value x) = destructure k (VObj o) (env_value y)).
  { intros k x y [H | ->]; [|reflexivity].
    unfold destructure. destruct (get_own k o); try reflexivity. now elim H. }
  intros Hr Hi Ha Hs. unfold CuteDynamo.init.
  rewrite (Hd _ _ _ Hr), (Hd _ _ _ Hi), (Hd _ _ _ Ha), (Hd _ _ _ Hs).
  reflexivity.
Qed.

Lemma init_options_override_environment_witness :
  CuteDynamo.init Scenario.env (VObj Scenario.full_options)
    (Scenario.fresh (Scenario.table_pk [])) =
  CuteDynamo.init Scenario.bare_env (VObj Scenario.full_options)
    (Scenario.fresh (Scenario.table_pk [])).
Proof.
  apply (init_options_override_environment Scenario.env Scenario.bare_env
           Scenario.full_options (Scenario.fresh (Scenario.table_pk [])));
    left; discriminate.
Defined.

(** X5. The three copies of the credential branch agree:
    createDynamoDBDocumentClient is DynamoDBDocumentClient.from of what
    createDynamoDBClient builds, errors included, and, in an environment
    without AWS variables, init on a defined argument assigns exactly the
    client createDynamoDBDocumentClient returns and fails when it fails. *)
Theorem factories_agree {World : Type}
    (env : ProcessEnv) (options : value) (st : @CuteDynamo.state World) :
  AWS_REGION env = None -> AWS_IDENTITY_POOL_ID env = None ->
  AWS_ACCESS_KEY_ID env = None -> AWS_SECRET_ACCESS_KEY env = None ->
  options <> VUndefined ->
  Helpers.createDynamoDBDocumentClient options =
    (let* client := Index.createDynamoDBClient options in Ok (from client)) /\
  CuteDynamo.init env options st =
    match Helpers.createDynamoDBDocumentClient options with
    | Ok client =>
        (Ok VUndefined,
         {| CuteDynamo.client := Some client;
            CuteDynamo.world := CuteDynamo.world st |})
    | Throw e => (Throw e, st)
    | Unmodelled => (Unmodelled, st)
    end.
Proof.
  intros Er Ei Ea Es Hdef. split.
  - unfold Helpers.createDynamoDBDocumentClient, Index.createDynamoDBClient.
    destruct options; try reflexivity;
      match goal with
      | |- context [if truthy ?id then _ else _] => destruct (truthy id)
      end;
      try match goal with
        | |- context [if truthy ?ks then _ else _] => destruct (truthy ks)
        end;
      try reflexivity;
      unfold new_CognitoIdentityClient, new_DynamoDBClient;
      match goal with
      | |- context [region_missing ?r] => destruct (region_missing r)
      end; reflexivity.
  - unfold CuteDynamo.init, Helpers.createDynamoDBDocumentClient.
    rewrite Er, Ei, Ea, Es. cbn [env_value].
    destruct options; try reflexivity; try (now elim Hdef);
      match goal with
      | |- context [if truthy ?id then _ else _] => destruct (truthy id)
      end;
      try match goal with
        | |- context [if truthy ?ks then _ else _] => destruct (truthy ks)
        end;
      try reflexivity;
      unfold new_CognitoIdentityClient, new_DynamoDBClient;
      match goal with
      | |- context [region_missing ?r] => destruct (region_missing r)
      end; reflexivity.
Qed.

Lemma factories_agree_witness :
  CuteDynamo.init Scenario.bare_env (VObj Scenario.full_options)
    (Scenario.fresh (Scenario.table_pk [])) =
  (Ok VUndefined,
   {| CuteDynamo.client :=
        Some (from (NewDynamoDBClient (VStr "eu-west-1")
                      (StaticCredentials (VStr "AKIAOPTION") (VStr "option-secret"))));
      CuteDynamo.world := Scenario.table_pk [] |}).
Proof.
  refine (eq_trans (proj2 (factories_agree Scenario.bare_env
                             (VObj Scenario.full_options)
                             (Scenario.fresh (Scenario.table_pk []))
                             eq_refl eq_refl eq_refl eq_refl _)) _).
  - discriminate.
  - reflexivity.
Defined.

(** * Further properties of get and put *)

Lemma define_existing (k : string) (v : value) (o : object) :
  has_own k o = true -> define k v o = replace k v o.
Proof. unfold define. now intros ->. Qed.

Lemma replace_keys (k : string) (v : value) (o : object) :
  map fst (replace k v o) = map fst o.
Proof.
  induction o as [|[k' v'] o IH]; simpl; [reflexivity|].
  destruct (k' =? k); simpl; [reflexivity | now rewrite IH].
Qed.

Lemma lookup_replace_same (k : string) (v : value) (o : object) :
  has_own k o = true -> lookup k (replace k v o) = Some v.
Proof.
  unfold has_own. induction o as [|[k' v'] o IH]; simpl; [discriminate|].
  destruct (k' =? k) eqn:E; simpl; rewrite E; [reflexivity | exact IH].
Qed.

Lemma lookup_replace_other (k k0 : string) (v : value) (o : object) :
  k0 <> k -> lookup k0 (replace k v o) = lookup k0 o.
Proof.
  intros Hne. induction o as [|[k' v'] o IH]; simpl; [reflexivity|].
  destruct (k' =? k) eqn:E; simpl.
  - apply String.eqb_eq in E. subst k'.
    destruct (String.eqb_spec k k0) as [->|_]; [now elim Hne | reflexivity].
  - now rewrite IH.
Qed.

(** X6. The decoding step of get.  An item with a truthy JSON attribute on
    which JSON.parse succeeds comes back with that attribute replaced by
    the parsed value, in place: same attribute names in the same order, every
    other attribute untouched.  An item without JSON attribute comes back as
    it is, and so does nothing but null come back for an absent item. *)
Theorem decode_replaces_in_place (item : object) (j v : value) :
  lookup "JSON" item = Some j ->
  truthy j = true ->
  JSON.parse j = Ok v ->
  (exists item',
     CuteDynamo.decode (GetCommandOutput (Some item)) = Ok (VObj item') /\
     map fst item' = map fst item /\
     lookup "JSON" item' = Some v /\
     forall k, k <> "JSON" -> lookup k item' = lookup k item) /\
  (forall item0, lookup "JSON" item0 = None ->
     CuteDynamo.decode (GetCommandOutput (Some item0)) = Ok (VObj item0)) /\
  CuteDynamo.decode (GetCommandOutput None) = Ok VNull.
Proof.
  intros Hj Ht Hp. split; [|split; [|reflexivity]].
  - assert (Hhas : has_own "JSON" item = true) by (unfold has_own; now rewrite Hj).
    exists (replace "JSON" v item). repeat split.
    + unfold CuteDynamo.decode. cbn [Item]. unfold get_own. rewrite Hj, Ht, Hp.
      cbn [bind]. now rewrite define_existing.
    + apply replace_keys.
    + now apply lookup_replace_same.
    + intros k Hk. now apply lookup_replace_other.
  - intros item0 H0. unfold CuteDynamo.decode. cbn [Item]. unfold get_own.
    rewrite H0. reflexivity.
Qed.

Lemma decode_replaces_in_place_witness :
  exists item',
    CuteDynamo.decode
      (GetCommandOutput (Some [("PK", VStr "K1"); ("JSON", VStr "[1,null]");
                               ("SK", VStr "S1")])) = Ok (VObj item') /\
    map fst item' = ["PK"; "JSON"; "SK"] /\
    lookup "JSON" item' = Some (VArr [VNum (Int 1); VNull]).
Proof.
  destruct (proj1 (decode_replaces_in_place
                     [("PK", VStr "K1"); ("JSON", VStr "[1,null]"); ("SK", VStr "S1")]
                     (VStr "[1,null]") (VArr [VNum (Int 1); VNull])
                     eq_refl eq_refl eq_refl))
    as (item' & H1 & H2 & H3 & _).
  exists item'. repeat split; assumption.
Defined.

(** X7. What a caller gets back for a value of the model that JSON cannot
    represent as it is.  The values meant are the well-formed ones of the
    model (undefined, null, booleans, NaN, the infinities, the negative
    zero, safe integers, strings of code units below 256, arrays and objects
    of these) other than undefined itself.  For each of them decoding the
    item put builds succeeds (its JSON attribute is a non-empty string, so
    the truthiness test of get does not skip it) and yields the JSON image
    of the data: NaN and the infinities become null, the negative zero 0,
    undefined array elements null, and undefined properties disappear. *)
Theorem put_then_decode_normal_form (data pk sk : value) :
  Shape.well_formed data = true -> data <> VUndefined ->
  CuteDynamo.decode (GetCommandOutput (Some (CuteDynamo.put_item data pk sk))) =
    Ok (VObj (define "JSON" (Shape.revived data) (CuteDynamo.put_item data pk sk))) /\
  get_own "JSON" (define "JSON" (Shape.revived data) (CuteDynamo.put_item data pk sk)) =
    Shape.revived data /\
  truthy (get_own "JSON" (CuteDynamo.put_item data pk sk)) = true.
Proof.
  intros Hwf Hdef.
  destruct (serialize_defined data Hdef) as (s & Hs).
  assert (Hstr : JSON.stringify data = VStr s)
    by (unfold JSON.stringify; now rewrite Hs).
  pose proof (parse_stringify data Hwf Hdef) as Hparse. rewrite Hstr in Hparse.
  pose proof (serialize_nonempty data s Hs) as Hne.
  unfold CuteDynamo.decode. cbn [Item].
  destruct (truthy sk) eqn:H.
  - rewrite (put_item_truthy data pk sk H), Hstr.
    change (get_own "JSON" [("PK", pk); ("SK", sk); ("JSON", VStr s)]) with (VStr s).
    cbn [truthy]. rewrite Hne. cbn [negb]. rewrite Hparse. repeat split.
  - rewrite (put_item_falsy data pk sk H), Hstr.
    change (get_own "JSON" [("PK", pk); ("JSON", VStr s)]) with (VStr s).
    cbn [truthy]. rewrite Hne. cbn [negb]. rewrite Hparse. repeat split.
Qed.

Lemma put_then_decode_normal_form_witness :
  CuteDynamo.decode
    (GetCommandOutput (Some (CuteDynamo.put_item Scenario.lossy (VStr "K1") VUndefined))) =
  Ok (VObj [("PK", VStr "K1");
            ("JSON", VObj [("a", VNull); ("c", VArr [VNull; VNum (Int 0)])])]).
Proof.
  refine (proj1 (put_then_decode_normal_form Scenario.lossy (VStr "K1") VUndefined _ _)).
  - reflexivity.
  - discriminate.
Defined.

(** X8. put and get address the same key: apart from JSON, the item put
    builds for (pk, sk) and the key get builds for (pk, sk) have the same
    attributes with the same values, for every sort key, falsy ones
    included; the key never has a JSON attribute. *)
Theorem put_and_get_same_key (data pk sk : value) (k : string) :
  k <> "JSON" ->
  lookup k (CuteDynamo.put_item data pk sk) = lookup k (CuteDynamo.get_key pk sk) /\
  lookup "JSON" (CuteDynamo.get_key pk sk) = None /\
  lookup "PK" (CuteDynamo.get_key pk sk) = Some pk.
Proof.
  intros Hk.
  assert (E : ("JSON" =? k) = false) by (apply String.eqb_neq; congruence).
  destruct (truthy sk) eqn:H.
  - rewrite (put_item_truthy data pk sk H), (get_key_truthy pk sk H).
    cbn [lookup]. rewrite E. repeat split.
  - rewrite (put_item_falsy data pk sk H), (get_key_falsy pk sk H).
    cbn [lookup]. rewrite E. repeat split.
Qed.

Lemma put_and_get_same_key_witness :
  lookup "SK" (CuteDynamo.put_item Scenario.person (VStr "K1") (VNum (Int 0))) =
  lookup "SK" (CuteDynamo.get_key (VStr "K1") (VNum (Int 0))).
Proof.
  refine (proj1 (put_and_get_same_key Scenario.person (VStr "K1") (VNum (Int 0))
                   "SK" _)).
  discriminate.
Defined.

(** X9. One call, one request.  With a client in place, get sends exactly
    one GetCommand and put exactly one PutCommand, whatever the service
    answers and whether or not decoding then fails; each helper sends
    exactly its one command.  The table name is the value of DYNAMODB_TABLE
    at the time of the call, undefined when the variable is unset; nothing
    is retried and nothing else is sent. *)
Theorem one_command_per_call {World : Type}
    (send : DynamoDBDocumentClient -> Command -> World -> result Output * World)
    (env : ProcessEnv) (c : DynamoDBDocumentClient) (w : World)
    (log : list Command) (data pk sk key item e1 e2 : value) :
  let table := env_value (DYNAMODB_TABLE env) in
  let st := {| CuteDynamo.client := Some c; CuteDynamo.world := (w, log) |} in
  snd (CuteDynamo.world (snd (CuteDynamo.get (Trace.logged send) env pk sk st))) =
    (log ++ [GetCommand table (VObj (CuteDynamo.get_key pk sk))])%list /\
  snd (CuteDynamo.world (snd (CuteDynamo.put (Trace.logged send) env data pk sk st))) =
    (log ++ [PutCommand table (VObj (CuteDynamo.put_item data pk sk))])%list /\
  snd (snd (Helpers.get (Trace.logged send) env (Some c) key (w, log))) =
    (log ++ [GetCommand table key])%list /\
  snd (snd (Helpers.put (Trace.logged send) env (Some c) item (w, log))) =
    (log ++ [PutCommand table item])%list /\
  snd (snd (Helpers.updateItem (Trace.logged send) env (Some c) key e1 e2 (w, log))) =
    (log ++ [UpdateCommand table key e1 e2])%list /\
  snd (snd (Helpers.deleteItem (Trace.logged send) env (Some c) key (w, log))) =
    (log ++ [DeleteCommand table key])%list /\
  snd (snd (Helpers.queryItems (Trace.logged send) env (Some c) e1 e2 (w, log))) =
    (log ++ [QueryCommand table e1 e2])%list /\
  snd (snd (Helpers.scanTable (Trace.logged send) env (Some c) e1 e2 (w, log))) =
    (log ++ [ScanCommand table e1 e2])%list.
Proof.
  intros table st.
  unfold CuteDynamo.get, CuteDynamo.put, Helpers.get, Helpers.put,
    Helpers.updateItem, Helpers.deleteItem, Helpers.queryItems, Helpers.scanTable,
    Helpers.client_send, Trace.logged.
  cbn [CuteDynamo.client CuteDynamo.world st fst snd].
  repeat split;
    match goal with
    | |- context [send ?c ?cmd ?w] => destruct (send c cmd w) as [[r| |] w']
    end; reflexivity.
Qed.

(** X10. The package operations are the helpers composed with the codec:
    put resolves to what the helper put resolves to on the encoded item,
    and get to the decoding of what the helper get resolves to on the key
    object, errors of the service passing through unchanged; both leave the
    store as the helper leaves it. *)
Theorem operations_are_helpers_with_codec {World : Type}
    (send : DynamoDBDocumentClient -> Command -> World -> result Output * World)
    (env : ProcessEnv) (c : option DynamoDBDocumentClient) (w : World)
    (data pk sk : value) :
  let st := {| CuteDynamo.client := c; CuteDynamo.world := w |} in
  let sent := Helpers.put send env c (VObj (CuteDynamo.put_item data pk sk)) w in
  let asked := Helpers.get send env c (VObj (CuteDynamo.get_key pk sk)) w in
  CuteDynamo.put send env data pk sk st =
    (fst sent, {| CuteDynamo.client := c; CuteDynamo.world := snd sent |}) /\
  CuteDynamo.get send env pk sk st =
    ((let* response := fst asked in CuteDynamo.decode response),
     {| CuteDynamo.client := c; CuteDynamo.world := snd asked |}).
Proof.
  unfold CuteDynamo.put, CuteDynamo.get, Helpers.put, Helpers.get,
    Helpers.client_send.
  cbn [CuteDynamo.client CuteDynamo.world].
  destruct c as [c|]; [|split; reflexivity].
  split.
  - destruct (send c _ w) as [r w']. reflexivity.
  - destruct (send c _ w) as [[r| |] w']; reflexivity.
Qed.
